(** * Click-to-blur tool ([blur_faces.py]): a shallow embedding of [BlurTool]

    The development follows the source file top to bottom: numpy arrays and
    the few numpy / OpenCV primitives the tool calls, the object store in
    which the arrays live (the tool keeps several references to arrays and
    mutates the live one in place), the [BlurTool] methods, and the main loop.
    The theorems about them come after the definitions. *)

From stdpp Require Import base numbers option list strings.
From Stdlib Require Import ZArith Lia Ascii DecimalString.

Local Open Scope Z_scope.

(** ** Arrays *)

(** One BGR pixel of a [(h, w, 3)] array; the same shape holds the three
    booleans of an elementwise comparison. *)
Record px (A : Type) := Px { c0 : A; c1 : A; c2 : A }.
Arguments Px {A} _ _ _.
Arguments c0 {A} _.
Arguments c1 {A} _.
Arguments c2 {A} _.

Definition px_map {A B} (f : A → B) (p : px A) : px B :=
  Px (f (c0 p)) (f (c1 p)) (f (c2 p)).

(** A two-dimensional array, row major: [a[y][x]]. *)
Abbreviation array2 A := (list (list A)) (only parsing).

(** A colour image as [cv2.imread] returns it: [uint8], three channels. *)
Abbreviation pixel := (px Z) (only parsing).
Abbreviation ndarray := (list (list (px Z))) (only parsing).

(** [a[y, x]], when the index is in range. *)
Definition at2 {A} (a : array2 A) (y x : nat) : option A :=
  a !! y ≫= λ row, row !! x.

(** [a.shape[:2]], as [(rows, columns)]. An array without rows is given no
    columns; [cv2.imread] returns no such array, and [_apply_blur] does
    nothing on one. *)
Definition shape {A} (a : array2 A) : Z * Z :=
  (Z.of_nat (length a),
   Z.of_nat (match a with [] => 0%nat | row :: _ => length row end)).

(** Every row of a numpy array has the same length. *)
Definition rect {A} (h w : nat) (a : array2 A) : Prop :=
  length a = h ∧ Forall (λ row, length row = w) a.

(** Python's normalisation of one bound of a slice over a sequence of length
    [len]: a negative bound counts from the end, and both are clipped. *)
Definition slice_index (len : nat) (i : Z) : nat :=
  Z.to_nat (if i <? 0 then Z.max (i + Z.of_nat len) 0
            else Z.min i (Z.of_nat len)).

(** [l[lo:hi]] *)
Definition py_slice {A} (l : list A) (lo hi : Z) : list A :=
  let a := slice_index (length l) lo in
  let b := slice_index (length l) hi in
  take (b - a) (drop a l).

(** [a[y1:y2, x1:x2]] *)
Definition slice2 {A} (a : array2 A) (y1 y2 x1 x2 : Z) : array2 A :=
  (λ row, py_slice row x1 x2) <$> py_slice a y1 y2.

(** [a[y1:y2, x1:x2] = v]: every cell of the addressed rectangle receives the
    cell of [v] at the same offset from the rectangle's corner; the other
    cells keep their value. numpy requires [v] to have the rectangle's shape
    (lemma [roi_out_rect] below shows it has). *)
Definition assign_slice2 {A} (a : array2 A) (y1 y2 x1 x2 : Z) (v : array2 A)
  : array2 A :=
  let ya := slice_index (length a) y1 in
  let yb := slice_index (length a) y2 in
  imap (λ y row,
    let xa := slice_index (length row) x1 in
    let xb := slice_index (length row) x2 in
    imap (λ x old,
      if bool_decide (ya ≤ y < yb ∧ xa ≤ x < xb)%nat
      then default old (at2 v (y - ya) (x - xa))
      else old) row) a.

(** [np.zeros(shape, dtype=np.uint8)] *)
Definition np_zeros (shp : Z * Z) : array2 Z :=
  replicate (Z.to_nat shp.1) (replicate (Z.to_nat shp.2) 0).

(** Three lists walked together. *)
Definition zip_with3 {A B C D} (f : A → B → C → D)
    (l1 : list A) (l2 : list B) (l3 : list C) : list D :=
  zip_with (λ g z, g z) (zip_with f l1 l2) l3.

(** [cv2.merge([a, b, c])] *)
Definition cv2_merge (a b c : array2 Z) : ndarray :=
  zip_with3 (zip_with3 Px) a b c.

(** [a == v], elementwise *)
Definition np_eq (a : ndarray) (v : Z) : array2 (px bool) :=
  (λ row : list pixel, px_map (λ c, c =? v) <$> row) <$> a.

(** [np.where(cond, x, y)], elementwise over rows, columns and channels *)
Definition where_px (c : px bool) (x y : pixel) : pixel :=
  Px (if c0 c then c0 x else c0 y)
     (if c1 c then c1 x else c1 y)
     (if c2 c then c2 x else c2 y).

Definition np_where (cond : array2 (px bool)) (x y : ndarray) : ndarray :=
  zip_with3 (zip_with3 where_px) cond x y.

(** Painting a set of cells, clipped to the array: what [cv2.circle] and
    [cv2.putText] do to their first argument. *)
Definition paint {A} (a : array2 A) (covers : Z → Z → bool) (color : A)
  : array2 A :=
  imap (λ y row,
    imap (λ x old,
      if covers (Z.of_nat x) (Z.of_nat y) then color else old) row) a.

(** ** The object store

    [self.original], [self.image] and the entries of [self.history] are
    references to array objects; [self.image[...] = ...] mutates the object
    [self.image] refers to. A reference is an index into the store. *)
Abbreviation ref := nat (only parsing).
Abbreviation store := (list (list (list (px Z)))) (only parsing).

Definition deref (σ : store) (l : ref) : ndarray := default [] (σ !! l).

(** [a.copy()]: a new object with the contents of [a]. *)
Definition ndarray_copy (σ : store) (l : ref) : ref * store :=
  (length σ, σ ++ [deref σ l]).

(** ** The tool *)

Record BlurTool := mkBlurTool {
  heap : store;
  image_path : string;
  original : ref;
  image : ref;
  history : list ref;
  radius : Z;
  blur_strength : Z;
  mouse_pos : Z * Z;
}.

Definition with_heap (self : BlurTool) (σ : store) : BlurTool :=
  mkBlurTool σ (image_path self) (original self) (image self) (history self)
    (radius self) (blur_strength self) (mouse_pos self).
Definition with_image (self : BlurTool) (l : ref) : BlurTool :=
  mkBlurTool (heap self) (image_path self) (original self) l (history self)
    (radius self) (blur_strength self) (mouse_pos self).
Definition with_history (self : BlurTool) (hs : list ref) : BlurTool :=
  mkBlurTool (heap self) (image_path self) (original self) (image self) hs
    (radius self) (blur_strength self) (mouse_pos self).
Definition with_radius (self : BlurTool) (r : Z) : BlurTool :=
  mkBlurTool (heap self) (image_path self) (original self) (image self)
    (history self) r (blur_strength self) (mouse_pos self).
Definition with_blur_strength (self : BlurTool) (b : Z) : BlurTool :=
  mkBlurTool (heap self) (image_path self) (original self) (image self)
    (history self) (radius self) b (mouse_pos self).
Definition with_mouse_pos (self : BlurTool) (p : Z * Z) : BlurTool :=
  mkBlurTool (heap self) (image_path self) (original self) (image self)
    (history self) (radius self) (blur_strength self) p.

(** The contents of the live image. *)
Definition live (self : BlurTool) : ndarray := deref (heap self) (image self).

(** The contents of the history entries, oldest first. *)
Definition snapshots (self : BlurTool) : list ndarray :=
  deref (heap self) <$> history self.

(** What the tool does to the outside world. [imwrite] stands for a call of
    [cv2.imwrite] that found an encoder; [uncaught] for an exception that
    nothing catches: the interpreter prints the traceback and exits with
    status 1. *)
Inductive effect :=
  | imshow (frame : ndarray)
  | imwrite (path : string) (img : ndarray)
  | print (s : string)
  | print_stderr (s : string)
  | destroyAllWindows
  | uncaught (exc : string).

(** Was an exception left uncaught? *)
Definition raised (out : list effect) : bool :=
  existsb (λ e, match e with uncaught _ => true | _ => false end) out.

(** [f"{n}"] for an integer. *)
Definition str (n : Z) : string := NilZero.string_of_int (Z.to_int n).

(** Lines 35-39 of [__init__]: the tool for a decoded image [a], which
    [self.original] refers to. *)
Definition new_tool (path : string) (a : ndarray) : BlurTool :=
  let σ := [a] in
  let '(img, σ) := ndarray_copy σ 0%nat in
  mkBlurTool σ path 0%nat img [] 50 51 (-1, -1).

(** [__init__]: [loaded] is the result of [cv2.imread(image_path)], [None]
    when the file cannot be decoded, in which case the tool exits. *)
Definition __init__ (path : string) (loaded : option ndarray)
  : BlurTool + list effect :=
  match loaded with
  | None =>
      inr [print_stderr ("Error: Could not load image '" +:+ path +:+ "'")]
  | Some a => inl (new_tool path a)
  end.

(** Lines 68-75 of [_apply_blur]: the bounding box [(x1, y1, x2, y2)] of the
    brush, clamped to the image. *)
Definition bbox (w h cx cy r : Z) : Z * Z * Z * Z :=
  let x1 := Z.max (cx - r) 0 in
  let y1 := Z.max (cy - r) 0 in
  let x2 := Z.min (cx + r) w in
  let y2 := Z.min (cy + r) h in
  (x1, y1, x2, y2).

(** The test of line 77. *)
Definition degenerate (b : Z * Z * Z * Z) : bool :=
  let '(x1, y1, x2, y2) := b in (x2 <=? x1) || (y2 <=? y1).

(** [cv2.EVENT_MOUSEMOVE], [cv2.EVENT_LBUTTONDOWN] *)
Definition EVENT_MOUSEMOVE : Z := 0.
Definition EVENT_LBUTTONDOWN : Z := 1.

(** [ord] of the keys of the main loop *)
Definition ord_q : Z := 113.
Definition ord_plus : Z := 43.
Definition ord_equals : Z := 61.
Definition ord_minus : Z := 45.
Definition ord_rbracket : Z := 93.
Definition ord_lbracket : Z := 91.
Definition ord_u : Z := 117.

Section BlurTool.

(** The library routines the tool calls are parameters.
    [GaussianBlur roi ksize] is [cv2.GaussianBlur(roi, (ksize, ksize), sigma)]
    with [sigma = ksize / 3.0], a function of [ksize]; it is handed the
    region of interest, and its result depends on nothing else. The tool
    calls it with an odd positive [ksize] in every state it reaches (lemma
    [library_arguments_valid]).
    [circle_pixels center radius thickness x y] tells whether [cv2.circle]
    paints the cell [(x, y)]; [text_pixels text org x y] does the same for
    [cv2.putText] with the font, scale and thickness of [_display_frame]. *)
Variable GaussianBlur : ndarray → Z → ndarray.
Variable circle_pixels : Z * Z → Z → Z → Z → Z → bool.
Variable text_pixels : string → Z * Z → Z → Z → bool.

Definition cv2_circle {A} (img : array2 A) (center : Z * Z) (radius : Z)
    (color : A) (thickness : Z) : array2 A :=
  paint img (circle_pixels center radius thickness) color.

Definition cv2_putText (img : ndarray) (text : string) (org : Z * Z)
    (color : pixel) : ndarray :=
  paint img (text_pixels text org) color.

(** [_display_frame]: the frame is a copy of the live image, so drawing the
    overlay leaves the live image alone; the copy is not kept anywhere. *)
Definition _display_frame (self : BlurTool) : ndarray :=
  let frame := live self in
  let '(mx, my) := mouse_pos self in
  let frame :=
    if (mx >=? 0) && (my >=? 0)
    then cv2_circle frame (mx, my) (radius self) (Px 0 255 0) 2
    else frame in
  cv2_putText frame
    ("Radius: " +:+ str (radius self) +:+ "  Blur: "
       +:+ str (blur_strength self))
    (10, 30) (Px 0 255 0).

(** Lines 90-92: the mask over the region of interest. *)
Definition mask_of (roi : ndarray) (cx cy x1 y1 r : Z) : list (list Z) :=
  let mask := np_zeros (shape roi) in
  cv2_circle mask (cx - x1, cy - y1) r 255 (-1).

(** Lines 85-96: the composited region, from the region of interest. *)
Definition roi_out_of (roi : ndarray) (cx cy x1 y1 r blur : Z) : ndarray :=
  let ksize := Z.lor blur 1 in
  let blurred_roi := GaussianBlur roi ksize in
  let mask := mask_of roi cx cy x1 y1 r in
  let mask_3ch := cv2_merge mask mask mask in
  np_where (np_eq mask_3ch 255) blurred_roi roi.

Definition _apply_blur (self : BlurTool) (cx cy : Z) : BlurTool :=
  let '(h, w) := shape (live self) in
  let r := radius self in
  let '(x1, y1, x2, y2) := bbox w h cx cy r in
  if degenerate (x1, y1, x2, y2) then self
  else
    (* self.history.append(self.image.copy()) *)
    let '(snap, σ) := ndarray_copy (heap self) (image self) in
    let self := with_history (with_heap self σ) (history self ++ [snap]) in
    let roi := slice2 (live self) y1 y2 x1 x2 in
    let roi_out := roi_out_of roi cx cy x1 y1 r (blur_strength self) in
    (* self.image[y1:y2, x1:x2] = roi_out *)
    with_heap self
      (<[image self := assign_slice2 (live self) y1 y2 x1 x2 roi_out]>
         (heap self)).

Definition _mouse_callback (self : BlurTool) (event x y : Z) : BlurTool :=
  if event =? EVENT_MOUSEMOVE then with_mouse_pos self (x, y)
  else if event =? EVENT_LBUTTONDOWN then _apply_blur self x y
  else self.

(** [os.path.splitext] is the platform's; [posix_splitext] below is the
    POSIX one. *)
Variable splitext : string → string * string.

(** [has_writer path] tells whether [cv2.imwrite] finds an encoder for
    [path]: it chooses the encoder from the extension of the file name, and
    raises [cv2.error] when it has none for it (while [cv2.imread] chooses
    the decoder from the contents of the file, whatever its name). The file
    system is taken to accept the write. *)
Variable has_writer : string → bool.

Definition _output_path (self : BlurTool) : string :=
  let '(base, ext) := splitext (image_path self) in
  base +:+ "_blurred" +:+ ext.

(** The [if]/[elif] chain of the main loop on [key = cv2.waitKey(30) & 0xFF].
    The result is the tool, what was written and printed, and whether the
    loop is left: by [break], or by the exception of [cv2.imwrite], which
    line 135 does not catch and which the loop has no handler for. *)
Definition on_key (self : BlurTool) (key : Z)
  : BlurTool * list effect * bool :=
  if key =? ord_q then
    let out := _output_path self in
    if has_writer out then
      (self,
       [imwrite out (live self); print ("Saved blurred image to: " +:+ out)],
       true)
    else (self, [uncaught "cv2.error"], true)
  else if key =? 27 then
    (self, [print "Exited without saving."], true)
  else if (key =? ord_plus) || (key =? ord_equals) then
    let self := with_radius self (Z.min (radius self + 10) 300) in
    (self, [print ("Radius: " +:+ str (radius self))], false)
  else if key =? ord_minus then
    let self := with_radius self (Z.max (radius self - 10) 10) in
    (self, [print ("Radius: " +:+ str (radius self))], false)
  else if key =? ord_rbracket then
    let self := with_blur_strength self (Z.min (blur_strength self + 10) 199) in
    (self, [print ("Blur strength: " +:+ str (blur_strength self))], false)
  else if key =? ord_lbracket then
    let self := with_blur_strength self (Z.max (blur_strength self - 10) 11) in
    (self, [print ("Blur strength: " +:+ str (blur_strength self))], false)
  else if key =? ord_u then
    match last (history self) with
    | Some snap =>
        (* self.image = self.history.pop() *)
        (with_image (with_history self (removelast (history self))) snap,
         [print "Undo."], false)
    | None => (self, [print "Nothing to undo."], false)
    end
  else (self, [], false).

(** What happens during one turn of the [while True] loop: the mouse events
    the window delivers while [cv2.waitKey] waits, as the arguments
    [(event, x, y)] of the callback, and the value [cv2.waitKey] returns
    ([-1] when no key was pressed). *)
Record tick := mkTick {
  mouse_events : list (Z * Z * Z);
  waitKey : Z;
}.

Definition loop_body (self : BlurTool) (t : tick)
  : BlurTool * list effect * bool :=
  let shown := imshow (_display_frame self) in
  let self :=
    foldl (λ s e, _mouse_callback s e.1.1 e.1.2 e.2) self (mouse_events t) in
  let key := Z.land (waitKey t) 255 in
  let '(self, out, stop) := on_key self key in
  (self, shown :: out, stop).

(** [run] on the turns the user gives it. The last component tells whether
    the loop was left; when it was left by an exception,
    [cv2.destroyAllWindows()] after the loop is not reached. The window
    set-up before the loop draws nothing and touches no attribute, and is
    not part of the model. *)
Fixpoint run (self : BlurTool) (ticks : list tick)
  : BlurTool * list effect * bool :=
  match ticks with
  | [] => (self, [], false)
  | t :: ticks =>
      let '(self, out, stop) := loop_body self t in
      if stop then
        (self, if raised out then out else out ++ [destroyAllWindows], true)
      else
        let '(self', out', stop') := run self ticks in
        (self', out ++ out', stop')
  end.

(** [main], after the command line is parsed: [path] is [args.image],
    [isfile] is what [os.path.isfile(args.image)] answers and [loaded] what
    [cv2.imread] returns for it. The result is what was shown, written and
    printed, and the exit status: 1 from [sys.exit(1)] or from an uncaught
    exception, 0 when [run] returns, none while the loop still waits for
    input. *)
Definition main (path : string) (isfile : bool) (loaded : option ndarray)
    (ticks : list tick) : list effect * option Z :=
  if negb isfile then
    ([print_stderr ("Error: File '" +:+ path +:+ "' not found.")], Some 1)
  else
    match __init__ path loaded with
    | inr out => (out, Some 1)
    | inl tool =>
        let '(_, out, stop) := run tool ticks in
        (out, if raised out then Some 1 else if stop then Some 0 else None)
    end.

End BlurTool.

(** ** [posixpath.splitext]

    The standard library's [genericpath._splitext] with [sep = "/"], no
    [altsep] and [extsep = "."]. *)

(** [p.rfind(c)] for a one-character [c], on the suffix of [p] that starts at
    index [i]. *)
Fixpoint rfind_from (c : ascii) (p : string) (i : Z) : Z :=
  match p with
  | EmptyString => -1
  | String a p' =>
      let r := rfind_from c p' (i + 1) in
      if r >=? 0 then r else if Ascii.eqb a c then i else -1
  end.

Definition rfind (p : string) (c : ascii) : Z := rfind_from c p 0.

(** [p[:n]] and [p[n:]] for [0 <= n] *)
Fixpoint str_take (n : nat) (p : string) : string :=
  match n, p with
  | S n, String a p' => String a (str_take n p')
  | _, _ => EmptyString
  end.

Fixpoint str_drop (n : nat) (p : string) : string :=
  match n, p with
  | S n, String a p' => str_drop n p'
  | _, _ => p
  end.

(** The [while] loop of [_splitext]: is there a character other than ["."]
    at an index in [[i, i + n)]? *)
Fixpoint has_non_dot (p : string) (i n : nat) : bool :=
  match n with
  | O => false
  | S n =>
      match String.get i p with
      | Some a => if Ascii.eqb a "."%char then has_non_dot p (S i) n else true
      | None => true
      end
  end.

Definition posix_splitext (p : string) : string * string :=
  let sepIndex := rfind p "/"%char in
  let dotIndex := rfind p "."%char in
  if (dotIndex >? sepIndex)
     && has_non_dot p (Z.to_nat (sepIndex + 1))
          (Z.to_nat (dotIndex - (sepIndex + 1)))
  then (str_take (Z.to_nat dotIndex) p, str_drop (Z.to_nat dotIndex) p)
  else (p, EmptyString).

(** ** Instances of the library routines, for closed examples *)

(** Modelled from the spec: the filled circle of section 4.3, step 5, which
    [cv2.circle] rasterises and which is not part of the tool: a cell is
    painted iff [(x - cx)² + (y - cy)² ≤ radius²]. *)
Definition filled_disc (center : Z * Z) (radius x y : Z) : bool :=
  (x - center.1) * (x - center.1) + (y - center.2) * (y - center.2)
  <=? radius * radius.

(** A stand-in for the outline [cv2.circle] draws with a positive thickness:
    the ring of cells whose distance to the centre is within half the
    thickness of the radius. It is neither the specification's nor the
    library's rasterisation (which is a little wider), only something to
    run the definitions with. *)
Definition ring (center : Z * Z) (radius thickness x y : Z) : bool :=
  let d2 := (x - center.1) * (x - center.1) + (y - center.2) * (y - center.2) in
  ((2 * radius - thickness) * (2 * radius - thickness) <=? 4 * d2)
  && (4 * d2 <=? (2 * radius + thickness) * (2 * radius + thickness)).

(** The instance of [circle_pixels] in the closed examples: the filled disc
    for [thickness < 0], as in [_apply_blur], the ring otherwise. *)
Definition disc_pixels (center : Z * Z) (radius thickness x y : Z) : bool :=
  if thickness <? 0 then filled_disc center radius x y
  else ring center radius thickness x y.

(** A smoothing filter that keeps the shape of its argument: every cell
    becomes the channel-wise mean of the whole region (a box filter whose
    window covers the region). *)
Definition channel_sum (f : pixel → Z) (roi : ndarray) : Z :=
  foldr (λ row acc, foldr (λ p acc, f p + acc) acc row) 0 roi.

Definition cell_count (roi : ndarray) : Z :=
  foldr (λ row acc, Z.of_nat (length row) + acc) 0 roi.

Definition mean_blur (roi : ndarray) (ksize : Z) : ndarray :=
  let n := cell_count roi in
  let m := Px (channel_sum c0 roi / n) (channel_sum c1 roi / n)
              (channel_sum c2 roi / n) in
  (λ row : list pixel, (λ _, m) <$> row) <$> roi.

(** No text is drawn. *)
Definition no_text (text : string) (org : Z * Z) (x y : Z) : bool := false.

(** A stand-in for OpenCV's table of encoders: the file name ends in one of
    the usual extensions. A name without extension has no encoder, as in
    the library. *)
Definition known_writer (path : string) : bool :=
  existsb (String.eqb (posix_splitext path).2)
    [".png"; ".jpg"; ".jpeg"; ".bmp"; ".tif"; ".tiff"; ".webp";
     ".PNG"; ".JPG"; ".JPEG"; ".BMP"; ".TIF"; ".TIFF"; ".WEBP"]%string.

(** A routine keeps the shape of the region it is given, as
    [cv2.GaussianBlur] does (its result has the size and type of its
    source). *)
Definition shape_preserving (blur : ndarray → Z → ndarray) : Prop :=
  ∀ roi k h w, rect h w roi → rect h w (blur roi k).

(** ** Well-formed tools *)

(** The live image is an object of the store, and so are the history
    entries; no two of these references are the same object. *)
Definition heap_ok (self : BlurTool) : Prop :=
  (image self < length (heap self))%nat
  ∧ Forall (λ l, (l < length (heap self))%nat) (history self)
  ∧ NoDup (image self :: history self).

(** [tracks self self']: [self'] is a well-formed tool whose store has all
    the objects of the store of [self], and whose history is a prefix of the
    history of [self], with the contents these entries have in [self],
    followed by objects that did not exist in [self]. *)
Definition tracks (self self' : BlurTool) : Prop :=
  heap_ok self'
  ∧ (length (heap self) ≤ length (heap self'))%nat
  ∧ ∃ (k : nat) (news : list nat),
      history self' = take k (history self) ++ news
      ∧ Forall (λ l, (length (heap self) ≤ l)%nat) news
      ∧ Forall (λ l, deref (heap self') l = deref (heap self) l)
          (take k (history self)).

(** The parameters are within their bounds, and the strength is odd. *)
Definition params_ok (self : BlurTool) : Prop :=
  (10 ≤ radius self ≤ 300)
  ∧ (11 ≤ blur_strength self ≤ 199)
  ∧ Z.odd (blur_strength self) = true.

(** The bounding box [_apply_blur] computes for a click at [(cx, cy)]. *)
Definition box_of (self : BlurTool) (cx cy : Z) : Z * Z * Z * Z :=
  let '(h, w) := shape (live self) in
  bbox w h cx cy (radius self).

(** [n] presses of the same key in a row, with no mouse event between. *)
Definition press (splitext : string → string * string)
    (has_writer : string → bool) (key : Z) (n : nat) (self : BlurTool)
  : BlurTool :=
  Nat.iter n (λ s, (on_key splitext has_writer s key).1.1) self.

(** ** A concrete session, for closed examples *)

(** A 24-row, 32-column image whose cells all differ. *)
Definition demo_image : list (list (px Z)) :=
  (λ y : nat,
     (λ x : nat, Px (Z.of_nat x) (Z.of_nat y) (Z.of_nat (x + y)))
       <$> seq 0 32) <$> seq 0 24.

(** The tool [new_tool "pics/me.jpg" demo_image] after four presses of
    ["-"]. *)
Definition demo_tool : BlurTool :=
  mkBlurTool [demo_image; demo_image] "pics/me.jpg" 0%nat 1%nat [] 10 51
    (-1, -1).

(** A small image and a tool with a small brush, to run the click on. *)
Definition tiny_image : list (list (px Z)) :=
  [[Px 0 0 0; Px 10 10 10; Px 20 20 20; Px 30 30 30];
   [Px 40 40 40; Px 50 50 50; Px 60 60 60; Px 70 70 70];
   [Px 80 80 80; Px 90 90 90; Px 100 100 100; Px 110 110 110]].

Definition tiny_tool : BlurTool :=
  mkBlurTool [tiny_image; tiny_image] "t.png" 0%nat 1%nat [] 1 11 (-1, -1).

(** Does the character occur in the string? *)
Fixpoint contains (c : ascii) (p : string) : bool :=
  match p with
  | EmptyString => false
  | String a p' => Ascii.eqb a c || contains c p'
  end.

(** The live image and every snapshot are [h] by [w] arrays. *)
Definition images_ok (h w : nat) (self : BlurTool) : Prop :=
  heap_ok self ∧ rect h w (live self) ∧ Forall (rect h w) (snapshots self).

(** ** Observations on what the tool does *)

(** The files written, in order: the arguments of the [cv2.imwrite] calls
    that found an encoder. *)
Definition writes (out : list effect) : list (string * list (list (px Z))) :=
  omap (λ e, match e with imwrite p img => Some (p, img) | _ => None end) out.

(** The frames shown, in order. *)
Definition frames (out : list effect) : list (list (list (px Z))) :=
  omap (λ e, match e with imshow f => Some f | _ => None end) out.

(** The overlay colour of [_display_frame], BGR [(0, 255, 0)]. *)
Definition green : px Z := Px 0 255 0.

(** An all-black image, and a tool on it. *)
Definition black_image : list (list (px Z)) :=
  replicate 24 (replicate 32 (Px 0 0 0)).

Definition black_tool : BlurTool :=
  mkBlurTool [black_image; black_image] "b.png" 0%nat 1%nat [] 10 51
    (-1, -1).

(** * Properties *)

(** ** Arrays *)

Lemma slice_index_in (len : nat) (i : Z) :
  0 ≤ i ≤ Z.of_nat len → slice_index len i = Z.to_nat i.
Proof.
  intros Hi. unfold slice_index.
  destruct (Z.ltb_spec i 0); [lia|]. f_equal. lia.
Qed.

Lemma py_slice_in {A} (l : list A) (lo hi : Z) :
  0 ≤ lo ≤ hi → hi ≤ Z.of_nat (length l) →
  py_slice l lo hi = take (Z.to_nat hi - Z.to_nat lo) (drop (Z.to_nat lo) l).
Proof.
  intros Hlo Hhi. unfold py_slice.
  rewrite !slice_index_in by lia. reflexivity.
Qed.

Lemma py_slice_length {A} (l : list A) (lo hi : Z) :
  0 ≤ lo ≤ hi → hi ≤ Z.of_nat (length l) →
  length (py_slice l lo hi) = Z.to_nat (hi - lo).
Proof.
  intros Hlo Hhi. rewrite py_slice_in by lia.
  rewrite length_take, length_drop. lia.
Qed.

Lemma py_slice_lookup {A} (l : list A) (lo hi : Z) (k : nat) :
  0 ≤ lo ≤ hi → hi ≤ Z.of_nat (length l) →
  (k < Z.to_nat (hi - lo))%nat →
  py_slice l lo hi !! k = l !! (Z.to_nat lo + k)%nat.
Proof.
  intros Hlo Hhi Hk. rewrite py_slice_in by lia.
  rewrite lookup_take, lookup_drop.
  destruct (decide (k < Z.to_nat hi - Z.to_nat lo)%nat); [done | lia].
Qed.

Lemma rect_shape {A} (h w : nat) (a : list (list A)) :
  rect h w a → (0 < h)%nat → shape a = (Z.of_nat h, Z.of_nat w).
Proof.
  intros [Hh Hw] Hpos. unfold shape. destruct a as [|row a]; simpl in *.
  - lia.
  - inversion Hw; subst. reflexivity.
Qed.

Lemma rect_row {A} (h w : nat) (a : list (list A)) (y : nat) row :
  rect h w a → a !! y = Some row → length row = w.
Proof.
  intros [_ Hw] Hy. rewrite Forall_lookup in Hw. exact (Hw _ _ Hy).
Qed.

Lemma rect_at2 {A} (h w : nat) (a : list (list A)) (y x : nat) :
  rect h w a → (y < h)%nat → (x < w)%nat → is_Some (at2 a y x).
Proof.
  intros Hr Hy Hx. unfold at2.
  destruct (lookup_lt_is_Some_2 a y) as [row Hrow]; [destruct Hr; lia|].
  rewrite Hrow. simpl. apply lookup_lt_is_Some_2.
  rewrite (rect_row _ _ _ _ _ Hr Hrow). exact Hx.
Qed.

Lemma at2_rect_Some {A} (h w : nat) (a : list (list A)) (y x : nat) p :
  rect h w a → at2 a y x = Some p → (y < h)%nat ∧ (x < w)%nat.
Proof.
  intros Hr. unfold at2. destruct (a !! y) as [row|] eqn:Hrow; [|done].
  simpl. intros Hx. split.
  - destruct Hr as [<- _]. eapply lookup_lt_Some, Hrow.
  - rewrite <- (rect_row _ _ _ _ _ Hr Hrow). eapply lookup_lt_Some, Hx.
Qed.

Lemma slice2_rect {A} (h w : nat) (a : list (list A)) (y1 y2 x1 x2 : Z) :
  rect h w a → 0 ≤ y1 ≤ y2 → y2 ≤ Z.of_nat h → 0 ≤ x1 ≤ x2 →
  x2 ≤ Z.of_nat w →
  rect (Z.to_nat (y2 - y1)) (Z.to_nat (x2 - x1)) (slice2 a y1 y2 x1 x2).
Proof.
  intros Hr Hy1 Hy2 Hx1 Hx2. pose proof Hr as [Hh Hw]. unfold slice2. split.
  - rewrite length_fmap, py_slice_length by lia. reflexivity.
  - rewrite Forall_fmap, py_slice_in by lia.
    apply Forall_take, Forall_drop. eapply Forall_impl; [exact Hw|].
    intros row Hrow. simpl in *. apply py_slice_length; lia.
Qed.

Lemma at2_slice2 {A} (h w : nat) (a : list (list A)) (y1 y2 x1 x2 : Z)
    (ly lx : nat) :
  rect h w a → 0 ≤ y1 ≤ y2 → y2 ≤ Z.of_nat h → 0 ≤ x1 ≤ x2 →
  x2 ≤ Z.of_nat w →
  (ly < Z.to_nat (y2 - y1))%nat → (lx < Z.to_nat (x2 - x1))%nat →
  at2 (slice2 a y1 y2 x1 x2) ly lx
  = at2 a (Z.to_nat y1 + ly) (Z.to_nat x1 + lx).
Proof.
  intros Hr Hy1 Hy2 Hx1 Hx2 Hly Hlx. pose proof Hr as [Hh Hw].
  unfold at2, slice2. rewrite list_lookup_fmap.
  rewrite py_slice_lookup by lia.
  destruct (a !! (Z.to_nat y1 + ly)%nat) as [row|] eqn:Hrow; [|done].
  simpl. apply py_slice_lookup; [lia| |lia].
  rewrite (rect_row _ _ _ _ _ Hr Hrow). lia.
Qed.

Lemma assign_slice2_rect {A} (h w : nat) (a v : list (list A))
    (y1 y2 x1 x2 : Z) :
  rect h w a → rect h w (assign_slice2 a y1 y2 x1 x2 v).
Proof.
  intros [Hh Hw]. unfold assign_slice2. split.
  - rewrite length_imap. exact Hh.
  - apply Forall_lookup. intros y row. rewrite list_lookup_imap.
    destruct (a !! y) as [row0|] eqn:Hrow; [|done].
    simpl. intros [= <-]. rewrite length_imap.
    rewrite Forall_lookup in Hw. exact (Hw _ _ Hrow).
Qed.

(** The cell [(y, x)] after [a[y1:y2, x1:x2] = v], for bounds inside [a]. *)
Lemma at2_assign_slice2 {A} (h w : nat) (a v : list (list A))
    (y1 y2 x1 x2 : Z) (y x : nat) :
  rect h w a → 0 ≤ y1 ≤ y2 → y2 ≤ Z.of_nat h → 0 ≤ x1 ≤ x2 →
  x2 ≤ Z.of_nat w →
  at2 (assign_slice2 a y1 y2 x1 x2 v) y x
  = (λ old,
       if bool_decide (y1 ≤ Z.of_nat y < y2 ∧ x1 ≤ Z.of_nat x < x2)
       then default old (at2 v (y - Z.to_nat y1) (x - Z.to_nat x1))
       else old) <$> at2 a y x.
Proof.
  intros Hr Hy1 Hy2 Hx1 Hx2. pose proof Hr as [Hh Hw].
  unfold at2 at 1 3, assign_slice2. rewrite list_lookup_imap.
  destruct (a !! y) as [row|] eqn:Hrow; [|done].
  simpl. rewrite list_lookup_imap.
  destruct (row !! x) as [old|] eqn:Hold; [|done].
  simpl. f_equal.
  rewrite (rect_row _ _ _ _ _ Hr Hrow).
  rewrite !slice_index_in by lia.
  destruct (bool_decide_reflect
              (Z.to_nat y1 ≤ y < Z.to_nat y2
               ∧ Z.to_nat x1 ≤ x < Z.to_nat x2)%nat) as [Hin|Hout];
    destruct (bool_decide_reflect
                (y1 ≤ Z.of_nat y < y2 ∧ x1 ≤ Z.of_nat x < x2)) as [Hin'|Hout'];
    try reflexivity; exfalso; lia.
Qed.

Lemma lookup_zip_with3 {A B C D} (f : A → B → C → D) l1 l2 l3 (i : nat) :
  zip_with3 f l1 l2 l3 !! i
  = l1 !! i ≫= λ x, l2 !! i ≫= λ y, l3 !! i ≫= λ z, Some (f x y z).
Proof.
  unfold zip_with3. rewrite !lookup_zip_with.
  destruct (l1 !! i); simpl; [|done].
  destruct (l2 !! i); simpl; done.
Qed.

Lemma at2_zip_with3 {A B C D} (f : A → B → C → D)
    (a : list (list A)) (b : list (list B)) (c : list (list C)) (y x : nat) :
  at2 (zip_with3 (zip_with3 f) a b c) y x
  = at2 a y x ≫= λ p, at2 b y x ≫= λ q, at2 c y x ≫= λ r, Some (f p q r).
Proof.
  unfold at2. rewrite lookup_zip_with3.
  destruct (a !! y) as [ra|]; simpl; [|done].
  destruct (b !! y) as [rb|]; simpl; [|by destruct (ra !! x)].
  destruct (c !! y) as [rc|]; simpl.
  - apply lookup_zip_with3.
  - destruct (ra !! x); simpl; [|done]. by destruct (rb !! x).
Qed.

Lemma zip_with3_rect {A B C D} (f : A → B → C → D) (h w : nat)
    (a : list (list A)) (b : list (list B)) (c : list (list C)) :
  rect h w a → rect h w b → rect h w c →
  rect h w (zip_with3 (zip_with3 f) a b c).
Proof.
  intros Ha Hb Hc. pose proof Ha as [Hah _]. pose proof Hb as [Hbh _].
  pose proof Hc as [Hch _]. split.
  - unfold zip_with3. rewrite !length_zip_with. lia.
  - apply Forall_lookup. intros y row. rewrite lookup_zip_with3.
    destruct (a !! y) as [ra|] eqn:Hra; simpl; [|done].
    destruct (b !! y) as [rb|] eqn:Hrb; simpl; [|done].
    destruct (c !! y) as [rc|] eqn:Hrc; simpl; [|done].
    intros [= <-]. unfold zip_with3. rewrite !length_zip_with.
    rewrite (rect_row _ _ _ _ _ Ha Hra), (rect_row _ _ _ _ _ Hb Hrb),
      (rect_row _ _ _ _ _ Hc Hrc). lia.
Qed.

Lemma at2_paint {A} (a : list (list A)) covers (color : A) (y x : nat) :
  at2 (paint a covers color) y x
  = (λ old, if covers (Z.of_nat x) (Z.of_nat y) then color else old)
      <$> at2 a y x.
Proof.
  unfold at2, paint. rewrite list_lookup_imap.
  destruct (a !! y) as [row|]; [|done]. simpl. apply list_lookup_imap.
Qed.

Lemma paint_rect {A} (h w : nat) (a : list (list A)) covers (color : A) :
  rect h w a → rect h w (paint a covers color).
Proof.
  intros [Hh Hw]. unfold paint. split.
  - rewrite length_imap. exact Hh.
  - apply Forall_lookup. intros y row. rewrite list_lookup_imap.
    destruct (a !! y) as [row0|] eqn:Hrow; [|done].
    simpl. intros [= <-]. rewrite length_imap.
    rewrite Forall_lookup in Hw. exact (Hw _ _ Hrow).
Qed.

Lemma np_zeros_rect (h w : nat) :
  rect h w (np_zeros (Z.of_nat h, Z.of_nat w)).
Proof.
  unfold np_zeros. simpl. rewrite !Nat2Z.id. split.
  - apply length_replicate.
  - apply Forall_replicate, length_replicate.
Qed.

Lemma at2_np_zeros (h w y x : nat) :
  (y < h)%nat → (x < w)%nat →
  at2 (np_zeros (Z.of_nat h, Z.of_nat w)) y x = Some 0.
Proof.
  intros Hy Hx. unfold at2, np_zeros. simpl. rewrite !Nat2Z.id.
  rewrite lookup_replicate_2 by exact Hy. simpl.
  apply lookup_replicate_2, Hx.
Qed.

Lemma at2_np_eq (a : list (list (px Z))) (v : Z) (y x : nat) :
  at2 (np_eq a v) y x = px_map (λ c, c =? v) <$> at2 a y x.
Proof.
  unfold at2, np_eq. rewrite list_lookup_fmap.
  destruct (a !! y) as [row|]; [|done]. simpl. apply list_lookup_fmap.
Qed.

Lemma np_eq_rect (h w : nat) (a : list (list (px Z))) (v : Z) :
  rect h w a → rect h w (np_eq a v).
Proof.
  intros [Hh Hw]. unfold np_eq. split.
  - rewrite length_fmap. exact Hh.
  - rewrite Forall_fmap. eapply Forall_impl; [exact Hw|].
    intros row Hrow. simpl. rewrite length_fmap. exact Hrow.
Qed.

(** ** The store *)

Lemma deref_app_l (σ : list (list (list (px Z)))) a (l : nat) :
  (l < length σ)%nat → deref (σ ++ [a]) l = deref σ l.
Proof. intros Hl. unfold deref. by rewrite lookup_app_l. Qed.

Lemma deref_app_new (σ : list (list (list (px Z)))) a :
  deref (σ ++ [a]) (length σ) = a.
Proof.
  unfold deref. rewrite lookup_app_r by lia.
  by rewrite Nat.sub_diag.
Qed.

Lemma deref_insert_eq (σ : list (list (list (px Z)))) a (l : nat) :
  (l < length σ)%nat → deref (<[l := a]> σ) l = a.
Proof. intros Hl. unfold deref. by rewrite list_lookup_insert_eq. Qed.

Lemma deref_insert_ne (σ : list (list (list (px Z)))) a (l l' : nat) :
  l ≠ l' → deref (<[l := a]> σ) l' = deref σ l'.
Proof. intros Hl. unfold deref. by rewrite list_lookup_insert_ne. Qed.

(** ** The bounding box *)

Lemma degenerate_false (x1 y1 x2 y2 : Z) :
  degenerate (x1, y1, x2, y2) = false ↔ x1 < x2 ∧ y1 < y2.
Proof.
  unfold degenerate. rewrite orb_false_iff, !Z.leb_gt. tauto.
Qed.

Lemma degenerate_true (x1 y1 x2 y2 : Z) :
  degenerate (x1, y1, x2, y2) = true ↔ x2 ≤ x1 ∨ y2 ≤ y1.
Proof.
  unfold degenerate. rewrite orb_true_iff, !Z.leb_le. tauto.
Qed.

Lemma box_of_bounds (self : BlurTool) (cx cy : Z) (h w : nat) x1 y1 x2 y2 :
  rect h w (live self) →
  box_of self cx cy = (x1, y1, x2, y2) →
  degenerate (x1, y1, x2, y2) = false →
  (0 ≤ x1 ∧ x1 < x2 ∧ x2 ≤ Z.of_nat w) ∧ (0 ≤ y1 ∧ y1 < y2 ∧ y2 ≤ Z.of_nat h).
Proof.
  intros Hr Hbox Hnd. apply degenerate_false in Hnd.
  unfold box_of, bbox in Hbox.
  destruct (decide (h = 0%nat)) as [->|Hh].
  - destruct Hr as [Hlen _]. apply length_zero_iff_nil in Hlen.
    rewrite Hlen in Hbox. simpl in Hbox.
    injection Hbox as <- <- <- <-. lia.
  - rewrite (rect_shape h w) in Hbox by (done || lia).
    injection Hbox as <- <- <- <-. lia.
Qed.

Section Properties.

Variable GaussianBlur : list (list (px Z)) → Z → list (list (px Z)).
Variable circle_pixels : Z * Z → Z → Z → Z → Z → bool.
Variable text_pixels : string → Z * Z → Z → Z → bool.
Variable splitext : string → string * string.
Variable has_writer : string → bool.

Local Abbreviation apply_blur := (_apply_blur GaussianBlur circle_pixels).
Local Abbreviation roi_out := (roi_out_of GaussianBlur circle_pixels).
Local Abbreviation mask := (mask_of circle_pixels).
Local Abbreviation mouse_callback := (_mouse_callback GaussianBlur circle_pixels).
Local Abbreviation key_pressed := (on_key splitext has_writer).
Local Abbreviation body :=
  (loop_body GaussianBlur circle_pixels text_pixels splitext has_writer).
Local Abbreviation run_loop :=
  (run GaussianBlur circle_pixels text_pixels splitext has_writer).

(** ** [_apply_blur], unfolded *)

Lemma apply_blur_degenerate (self : BlurTool) (cx cy : Z) :
  degenerate (box_of self cx cy) = true → apply_blur self cx cy = self.
Proof.
  unfold box_of, _apply_blur. destruct (shape (live self)) as [h w].
  destruct (bbox w h cx cy (radius self)) as [[[x1 y1] x2] y2].
  intros ->. reflexivity.
Qed.

Lemma apply_blur_eq (self : BlurTool) (cx cy x1 y1 x2 y2 : Z) :
  (image self < length (heap self))%nat →
  box_of self cx cy = (x1, y1, x2, y2) →
  degenerate (x1, y1, x2, y2) = false →
  apply_blur self cx cy
  = mkBlurTool
      (<[image self :=
           assign_slice2 (live self) y1 y2 x1 x2
             (roi_out (slice2 (live self) y1 y2 x1 x2) cx cy x1 y1
                (radius self) (blur_strength self))]>
         (heap self ++ [live self]))
      (image_path self) (original self) (image self)
      (history self ++ [length (heap self)])
      (radius self) (blur_strength self) (mouse_pos self).
Proof.
  intros Hlive. unfold box_of, _apply_blur.
  destruct (shape (live self)) as [h w].
  intros -> ->. unfold ndarray_copy, with_heap, with_history, live. simpl.
  rewrite deref_app_l by exact Hlive. reflexivity.
Qed.

(** ** The mask and the composited region *)

Lemma mask_rect (roi : list (list (px Z))) (h w : nat) (cx cy x1 y1 r : Z) :
  rect h w roi → (0 < h)%nat → rect h w (mask roi cx cy x1 y1 r).
Proof.
  intros Hr Hh. unfold mask_of, cv2_circle.
  rewrite (rect_shape h w) by done. apply paint_rect, np_zeros_rect.
Qed.

Lemma at2_mask (roi : list (list (px Z))) (h w : nat) (cx cy x1 y1 r : Z)
    (ly lx : nat) :
  rect h w roi → (ly < h)%nat → (lx < w)%nat →
  at2 (mask roi cx cy x1 y1 r) ly lx
  = Some (if circle_pixels (cx - x1, cy - y1) r (-1)
               (Z.of_nat lx) (Z.of_nat ly)
          then 255 else 0).
Proof.
  intros Hr Hly Hlx. unfold mask_of, cv2_circle.
  rewrite (rect_shape h w) by (done || lia).
  rewrite at2_paint, at2_np_zeros by done. reflexivity.
Qed.

Lemma where_px_all (b : bool) (x y : px Z) :
  where_px (Px b b b) x y = if b then x else y.
Proof. by destruct b, x, y. Qed.

Lemma roi_out_rect (roi : list (list (px Z))) (h w : nat)
    (cx cy x1 y1 r blur : Z) :
  shape_preserving GaussianBlur →
  rect h w roi → (0 < h)%nat → rect h w (roi_out roi cx cy x1 y1 r blur).
Proof.
  intros Hblur Hr Hh. unfold roi_out_of, np_where, cv2_merge.
  pose proof (mask_rect roi h w cx cy x1 y1 r Hr Hh) as Hm.
  apply zip_with3_rect; [|by apply Hblur|done].
  apply np_eq_rect. by apply zip_with3_rect.
Qed.

Lemma at2_roi_out (roi : list (list (px Z))) (h w : nat)
    (cx cy x1 y1 r blur : Z) (ly lx : nat) :
  shape_preserving GaussianBlur →
  rect h w roi → (ly < h)%nat → (lx < w)%nat →
  ∃ orig blurred,
    at2 roi ly lx = Some orig
    ∧ at2 (GaussianBlur roi (Z.lor blur 1)) ly lx = Some blurred
    ∧ at2 (roi_out roi cx cy x1 y1 r blur) ly lx
      = Some (if circle_pixels (cx - x1, cy - y1) r (-1)
                   (Z.of_nat lx) (Z.of_nat ly)
              then blurred else orig).
Proof.
  intros Hblur Hr Hly Hlx.
  destruct (rect_at2 h w roi ly lx Hr Hly Hlx) as [orig Horig].
  destruct (rect_at2 h w _ ly lx (Hblur roi (Z.lor blur 1) h w Hr) Hly Hlx)
    as [blurred Hblurred].
  exists orig, blurred. split; [done|]. split; [done|].
  unfold roi_out_of, np_where, cv2_merge.
  rewrite at2_zip_with3, at2_np_eq, at2_zip_with3.
  rewrite (at2_mask roi h w) by done. simpl.
  rewrite Hblurred, Horig. simpl. f_equal.
  unfold px_map. simpl.
  destruct (circle_pixels _ _ _ _ _); simpl; apply where_px_all.
Qed.

(** ** The live image after a click *)

Lemma live_apply_blur (self : BlurTool) (cx cy x1 y1 x2 y2 : Z) :
  (image self < length (heap self))%nat →
  box_of self cx cy = (x1, y1, x2, y2) →
  degenerate (x1, y1, x2, y2) = false →
  live (apply_blur self cx cy)
  = assign_slice2 (live self) y1 y2 x1 x2
      (roi_out (slice2 (live self) y1 y2 x1 x2) cx cy x1 y1
         (radius self) (blur_strength self)).
Proof.
  intros Hlive Hbox Hnd.
  rewrite (apply_blur_eq self cx cy x1 y1 x2 y2) by done.
  unfold live at 1. simpl. apply deref_insert_eq.
  rewrite length_app. simpl. lia.
Qed.

Lemma apply_blur_rect (self : BlurTool) (cx cy : Z) (h w : nat) :
  (image self < length (heap self))%nat →
  rect h w (live self) → rect h w (live (apply_blur self cx cy)).
Proof.
  intros Hlive Hr.
  destruct (box_of self cx cy) as [[[x1 y1] x2] y2] eqn:Hbox.
  destruct (degenerate (x1, y1, x2, y2)) eqn:Hnd.
  - rewrite apply_blur_degenerate by (by rewrite Hbox). exact Hr.
  - rewrite (live_apply_blur self cx cy x1 y1 x2 y2) by done.
    by apply assign_slice2_rect.
Qed.

(** Cells outside the box keep their value. *)
Lemma apply_blur_outside (self : BlurTool) (cx cy x1 y1 x2 y2 : Z)
    (h w y x : nat) :
  (image self < length (heap self))%nat →
  rect h w (live self) →
  box_of self cx cy = (x1, y1, x2, y2) →
  degenerate (x1, y1, x2, y2) = false →
  ¬ (x1 ≤ Z.of_nat x < x2 ∧ y1 ≤ Z.of_nat y < y2) →
  at2 (live (apply_blur self cx cy)) y x = at2 (live self) y x.
Proof.
  intros Hlive Hr Hbox Hnd Hout.
  destruct (box_of_bounds self cx cy h w x1 y1 x2 y2 Hr Hbox Hnd)
    as [Hx Hy].
  rewrite (live_apply_blur self cx cy x1 y1 x2 y2) by done.
  rewrite (at2_assign_slice2 h w) by (done || lia).
  destruct (at2 (live self) y x) as [old|]; [|done]. simpl.
  rewrite bool_decide_eq_false_2; [done | tauto].
Qed.

(** Cells of the box receive the composited region. *)
Lemma apply_blur_inside (self : BlurTool) (cx cy x1 y1 x2 y2 : Z)
    (h w ly lx : nat) :
  shape_preserving GaussianBlur →
  (image self < length (heap self))%nat →
  rect h w (live self) →
  box_of self cx cy = (x1, y1, x2, y2) →
  degenerate (x1, y1, x2, y2) = false →
  (Z.of_nat ly < y2 - y1) → (Z.of_nat lx < x2 - x1) →
  at2 (live (apply_blur self cx cy)) (Z.to_nat y1 + ly) (Z.to_nat x1 + lx)
  = at2 (roi_out (slice2 (live self) y1 y2 x1 x2) cx cy x1 y1
           (radius self) (blur_strength self)) ly lx.
Proof.
  intros Hblur Hlive Hr Hbox Hnd Hly Hlx.
  destruct (box_of_bounds self cx cy h w x1 y1 x2 y2 Hr Hbox Hnd)
    as [Hx Hy].
  assert (Hroi : rect (Z.to_nat (y2 - y1)) (Z.to_nat (x2 - x1))
                   (slice2 (live self) y1 y2 x1 x2))
    by (apply (slice2_rect h w); (done || lia)).
  destruct (at2_roi_out _ _ _ cx cy x1 y1 (radius self) (blur_strength self)
              ly lx Hblur Hroi) as (orig & blurred & _ & _ & Hout);
    [lia | lia |].
  rewrite (live_apply_blur self cx cy x1 y1 x2 y2) by done.
  rewrite (at2_assign_slice2 h w) by (done || lia).
  destruct (rect_at2 h w (live self) (Z.to_nat y1 + ly) (Z.to_nat x1 + lx))
    as [old Hold]; [done | lia | lia |].
  rewrite Hold. simpl. rewrite bool_decide_eq_true_2 by lia.
  replace (Z.to_nat y1 + ly - Z.to_nat y1)%nat with ly by lia.
  replace (Z.to_nat x1 + lx - Z.to_nat x1)%nat with lx by lia.
  rewrite Hout. reflexivity.
Qed.

(** ** Undo *)

Lemma on_key_undo (self : BlurTool) (hs : list nat) (snap : nat) :
  history self = hs ++ [snap] →
  key_pressed self ord_u
  = (with_image (with_history self hs) snap, [print "Undo."], false).
Proof.
  intros Hh. unfold on_key. simpl.
  rewrite Hh, last_snoc, removelast_last. reflexivity.
Qed.

Lemma on_key_undo_empty (self : BlurTool) :
  history self = [] →
  key_pressed self ord_u = (self, [print "Nothing to undo."], false).
Proof. intros Hh. unfold on_key. simpl. rewrite Hh. reflexivity. Qed.

(** The history entries of a well-formed tool are not touched by a write
    to the live image that follows an allocation. *)
Lemma snapshots_frame (self : BlurTool) (a b : list (list (px Z))) :
  heap_ok self →
  deref (<[image self := a]> (heap self ++ [b])) <$> history self
  = snapshots self.
Proof.
  intros (Hlive & Hhist & Hnd). unfold snapshots.
  apply Forall_fmap_ext_1. apply NoDup_cons in Hnd as [Hnotin _].
  rewrite Forall_forall in Hhist. apply Forall_forall. intros l Hl.
  rewrite deref_insert_ne by (intros Heq; apply Hnotin; by rewrite Heq).
  apply deref_app_l, Hhist, Hl.
Qed.

(** C1. A click whose box is not degenerate, followed at once by the undo
    key, gives back the live image cell for cell as it was before the click;
    the history and its snapshots are as before too. *)
Theorem undo_after_apply_restores (self : BlurTool) (cx cy : Z) :
  heap_ok self →
  degenerate (box_of self cx cy) = false →
  ∃ self',
    key_pressed (apply_blur self cx cy) ord_u
    = (self', [print "Undo."], false)
    ∧ live self' = live self
    ∧ history self' = history self
    ∧ snapshots self' = snapshots self
    ∧ radius self' = radius self
    ∧ blur_strength self' = blur_strength self.
Proof.
  intros Hok Hnd. pose proof Hok as (Hlive & Hhist & Hdup).
  destruct (box_of self cx cy) as [[[x1 y1] x2] y2] eqn:Hbox.
  rewrite (apply_blur_eq self cx cy x1 y1 x2 y2) by done.
  eexists. split; [by apply on_key_undo|].
  unfold live, snapshots. simpl. repeat split.
  - rewrite deref_insert_ne by lia. apply deref_app_new.
  - by apply snapshots_frame.
Qed.

(** C2. When the clamped box is degenerate ([x2 ≤ x1] or [y2 ≤ y1]),
    [_apply_blur] returns the tool as it was: the store, hence the live
    image, and the history are unchanged, and so it is for the click that
    reaches it through the mouse callback. *)
Theorem degenerate_click_is_noop (self : BlurTool) (cx cy x1 y1 x2 y2 : Z) :
  box_of self cx cy = (x1, y1, x2, y2) →
  x2 ≤ x1 ∨ y2 ≤ y1 →
  apply_blur self cx cy = self
  ∧ mouse_callback self EVENT_LBUTTONDOWN cx cy = self
  ∧ live (apply_blur self cx cy) = live self
  ∧ history (apply_blur self cx cy) = history self
  ∧ snapshots (apply_blur self cx cy) = snapshots self.
Proof.
  intros Hbox Hdeg.
  assert (Heq : apply_blur self cx cy = self).
  { apply apply_blur_degenerate. rewrite Hbox. by apply degenerate_true. }
  unfold _mouse_callback. simpl. rewrite Heq. done.
Qed.

(** A click at distance at least the radius from the image, on any side, has
    a degenerate box. *)
Lemma far_click_degenerate (self : BlurTool) (cx cy : Z) :
  cx + radius self ≤ 0 ∨ cy + radius self ≤ 0
  ∨ (shape (live self)).2 ≤ cx - radius self
  ∨ (shape (live self)).1 ≤ cy - radius self →
  degenerate (box_of self cx cy) = true.
Proof.
  intros Hfar. unfold box_of. destruct (shape (live self)) as [h w].
  simpl in Hfar. unfold bbox. apply degenerate_true. lia.
Qed.

(** C3. The box is [x1 = max(cx-r, 0)], [y1 = max(cy-r, 0)],
    [x2 = min(cx+r, w)], [y2 = min(cy+r, h)]; on a 10x10 image a click at
    [(0, 0)] with radius 50 gives [(0, 0, 10, 10)]; and when the box is not
    degenerate it lies inside the image, the region read has exactly the
    size of the box, the region written has that size too, no cell outside
    the box is written, and the cells of the box receive the region
    composited from the region read. *)
Theorem bounding_box_clamped (self : BlurTool) (cx cy : Z) (h w : nat)
    (x1 y1 x2 y2 : Z) :
  shape_preserving GaussianBlur →
  heap_ok self →
  rect h w (live self) → (0 < h)%nat →
  box_of self cx cy = (x1, y1, x2, y2) →
  (x1 = Z.max (cx - radius self) 0 ∧ y1 = Z.max (cy - radius self) 0
   ∧ x2 = Z.min (cx + radius self) (Z.of_nat w)
   ∧ y2 = Z.min (cy + radius self) (Z.of_nat h))
  ∧ (h = 10%nat → w = 10%nat → radius self = 50 →
     box_of self 0 0 = (0, 0, 10, 10))
  ∧ (degenerate (x1, y1, x2, y2) = false →
     let roi := slice2 (live self) y1 y2 x1 x2 in
     let out := roi_out roi cx cy x1 y1 (radius self) (blur_strength self) in
     (0 ≤ x1 ∧ x1 < x2 ∧ x2 ≤ Z.of_nat w)
     ∧ (0 ≤ y1 ∧ y1 < y2 ∧ y2 ≤ Z.of_nat h)
     ∧ rect (Z.to_nat (y2 - y1)) (Z.to_nat (x2 - x1)) roi
     ∧ rect (Z.to_nat (y2 - y1)) (Z.to_nat (x2 - x1)) out
     ∧ live (apply_blur self cx cy) = assign_slice2 (live self) y1 y2 x1 x2 out
     ∧ (∀ y x : nat,
          ¬ (x1 ≤ Z.of_nat x < x2 ∧ y1 ≤ Z.of_nat y < y2) →
          at2 (live (apply_blur self cx cy)) y x = at2 (live self) y x)
     ∧ (∀ ly lx : nat,
          Z.of_nat ly < y2 - y1 → Z.of_nat lx < x2 - x1 →
          at2 (live (apply_blur self cx cy))
            (Z.to_nat y1 + ly) (Z.to_nat x1 + lx)
          = at2 out ly lx)).
Proof.
  intros Hblur Hok Hr Hh Hbox. pose proof Hok as (Hlive & _).
  split; [|split].
  - unfold box_of in Hbox. rewrite (rect_shape h w) in Hbox by done.
    unfold bbox in Hbox. by injection Hbox as <- <- <- <-.
  - intros -> -> Hrad. unfold box_of.
    rewrite (rect_shape 10 10) by done. rewrite Hrad. reflexivity.
  - intros Hnd roi out.
    destruct (box_of_bounds self cx cy h w x1 y1 x2 y2 Hr Hbox Hnd)
      as [Hx Hy].
    assert (Hroi : rect (Z.to_nat (y2 - y1)) (Z.to_nat (x2 - x1)) roi)
      by (apply (slice2_rect h w); (done || lia)).
    split; [done|]. split; [done|]. split; [done|].
    split; [apply roi_out_rect; (done || lia)|].
    split; [by apply live_apply_blur|].
    split.
    + intros y x Hout. by apply (apply_blur_outside self cx cy x1 y1 x2 y2 h w).
    + intros ly lx Hly Hlx.
      by apply (apply_blur_inside self cx cy x1 y1 x2 y2 h w).
Qed.

(** C4. After a click whose box is not degenerate, every cell of the live
    image outside the box [[x1,x2) x [y1,y2)] has the value it had before,
    and the image keeps its shape. *)
Theorem outside_box_unchanged (self : BlurTool) (cx cy : Z) (h w : nat)
    (x1 y1 x2 y2 : Z) :
  heap_ok self →
  rect h w (live self) →
  box_of self cx cy = (x1, y1, x2, y2) →
  degenerate (x1, y1, x2, y2) = false →
  rect h w (live (apply_blur self cx cy))
  ∧ ∀ y x : nat,
      ¬ (x1 ≤ Z.of_nat x < x2 ∧ y1 ≤ Z.of_nat y < y2) →
      at2 (live (apply_blur self cx cy)) y x = at2 (live self) y x.
Proof.
  intros (Hlive & _) Hr Hbox Hnd. split.
  - by apply apply_blur_rect.
  - intros y x Hout.
    by apply (apply_blur_outside self cx cy x1 y1 x2 y2 h w).
Qed.

(** C5. Inside the box the click is a hard select by a binary mask: the mask
    cell is 255 where the rasteriser of [cv2.circle], called with centre
    [(cx - x1, cy - y1)] and radius [r], paints, and 0 elsewhere; the new
    cell is the blurred cell where the mask is 255 and the old cell where it
    is 0, and never anything else. *)
Theorem hard_mask_select (self : BlurTool) (cx cy : Z) (h w : nat)
    (x1 y1 x2 y2 : Z) (ly lx : nat) :
  shape_preserving GaussianBlur →
  heap_ok self →
  rect h w (live self) →
  box_of self cx cy = (x1, y1, x2, y2) →
  degenerate (x1, y1, x2, y2) = false →
  Z.of_nat ly < y2 - y1 → Z.of_nat lx < x2 - x1 →
  let roi := slice2 (live self) y1 y2 x1 x2 in
  ∃ m orig blurred,
    at2 (mask roi cx cy x1 y1 (radius self)) ly lx = Some m
    ∧ (m = 0 ∨ m = 255)
    ∧ (m = 255 ↔
       circle_pixels (cx - x1, cy - y1) (radius self) (-1)
         (Z.of_nat lx) (Z.of_nat ly) = true)
    ∧ at2 (live self) (Z.to_nat y1 + ly) (Z.to_nat x1 + lx) = Some orig
    ∧ at2 roi ly lx = Some orig
    ∧ at2 (GaussianBlur roi (Z.lor (blur_strength self) 1)) ly lx
      = Some blurred
    ∧ at2 (live (apply_blur self cx cy)) (Z.to_nat y1 + ly) (Z.to_nat x1 + lx)
      = Some (if m =? 255 then blurred else orig).
Proof.
  intros Hblur Hok Hr Hbox Hnd Hly Hlx roi. pose proof Hok as (Hlive & _).
  destruct (box_of_bounds self cx cy h w x1 y1 x2 y2 Hr Hbox Hnd)
    as [Hx Hy].
  assert (Hroi : rect (Z.to_nat (y2 - y1)) (Z.to_nat (x2 - x1)) roi)
    by (apply (slice2_rect h w); (done || lia)).
  destruct (at2_roi_out roi _ _ cx cy x1 y1 (radius self)
              (blur_strength self) ly lx Hblur Hroi)
    as (orig & blurred & Horig & Hblurred & Hout); [lia | lia |].
  exists (if circle_pixels (cx - x1, cy - y1) (radius self) (-1)
               (Z.of_nat lx) (Z.of_nat ly) then 255 else 0), orig, blurred.
  split; [eapply at2_mask; [exact Hroi | lia | lia]|].
  split; [destruct (circle_pixels _ _ _ _ _); auto|].
  split; [destruct (circle_pixels _ _ _ _ _); split; (done || lia)|].
  split.
  { rewrite <- Horig. symmetry. apply (at2_slice2 h w); (done || lia). }
  split; [done|]. split; [done|].
  rewrite (apply_blur_inside self cx cy x1 y1 x2 y2 h w) by done.
  fold roi. rewrite Hout. by destruct (circle_pixels _ _ _ _ _).
Qed.

(** ** The steps of the main loop *)

(** What a key does to the tool. *)
Lemma on_key_state (self : BlurTool) (key : Z) :
  (key_pressed self key).1.1 = self
  ∨ (key_pressed self key).1.1
    = with_radius self (Z.min (radius self + 10) 300)
  ∨ (key_pressed self key).1.1
    = with_radius self (Z.max (radius self - 10) 10)
  ∨ (key_pressed self key).1.1
    = with_blur_strength self (Z.min (blur_strength self + 10) 199)
  ∨ (key_pressed self key).1.1
    = with_blur_strength self (Z.max (blur_strength self - 10) 11)
  ∨ ∃ hs snap,
      history self = hs ++ [snap]
      ∧ (key_pressed self key).1.1 = with_image (with_history self hs) snap.
Proof.
  unfold on_key.
  destruct (key =? ord_q); [by destruct (has_writer _); left|].
  destruct (key =? 27); [by left|].
  destruct ((key =? ord_plus) || (key =? ord_equals)); [by right; left|].
  destruct (key =? ord_minus); [by right; right; left|].
  destruct (key =? ord_rbracket); [by right; right; right; left|].
  destruct (key =? ord_lbracket); [by right; right; right; right; left|].
  destruct (key =? ord_u); [|by left].
  destruct (last (history self)) as [snap|] eqn:Hlast; [|by left].
  apply last_Some in Hlast as [hs Hhs].
  do 5 right. exists hs, snap. split; [done|].
  simpl. rewrite Hhs, removelast_last. reflexivity.
Qed.

(** The tool after the loop has run over some turns. *)
Lemma run_state (self : BlurTool) (t : tick) (ticks : list tick) :
  (run_loop self (t :: ticks)).1.1
  = if (body self t).2 then (body self t).1.1
    else (run_loop (body self t).1.1 ticks).1.1.
Proof.
  simpl. destruct (body self t) as [[s out] stop]. simpl.
  destruct stop; [done|].
  by destruct (run_loop s ticks) as [[s' out'] stop'].
Qed.

Lemma body_state (self : BlurTool) (t : tick) :
  (body self t).1.1
  = (key_pressed
       (foldl (λ s e, mouse_callback s e.1.1 e.1.2 e.2) self (mouse_events t))
       (Z.land (waitKey t) 255)).1.1.
Proof.
  unfold loop_body.
  by destruct (key_pressed _ _) as [[s out] stop].
Qed.

(** A property that clicks and keys preserve holds throughout [run]. *)
Lemma run_invariant (P : BlurTool → Prop) :
  (∀ s cx cy, P s → P (apply_blur s cx cy)) →
  (∀ s p, P s → P (with_mouse_pos s p)) →
  (∀ s key, P s → P (key_pressed s key).1.1) →
  ∀ ticks self, P self → P (run_loop self ticks).1.1.
Proof.
  intros Hclick Hmove Hkey.
  assert (Hmouse : ∀ evs s, P s →
    P (foldl (λ s e, mouse_callback s e.1.1 e.1.2 e.2) s evs)).
  { induction evs as [|[[e x] y] evs IH]; intros s Hs; [done|].
    simpl. apply IH. unfold _mouse_callback.
    destruct (e =? EVENT_MOUSEMOVE); [by apply Hmove|].
    destruct (e =? EVENT_LBUTTONDOWN); [by apply Hclick | done]. }
  induction ticks as [|t ticks IH]; intros self Hself; [done|].
  rewrite run_state.
  assert (P (body self t).1.1) by (rewrite body_state; auto).
  destruct ((body self t).2); auto.
Qed.

(** ** The parameters *)

Lemma apply_blur_params (self : BlurTool) (cx cy : Z) :
  radius (apply_blur self cx cy) = radius self
  ∧ blur_strength (apply_blur self cx cy) = blur_strength self
  ∧ image_path (apply_blur self cx cy) = image_path self.
Proof.
  unfold _apply_blur. destruct (shape (live self)) as [h w].
  destruct (bbox w h cx cy (radius self)) as [[[x1 y1] x2] y2].
  by destruct (degenerate _).
Qed.

Lemma odd_step (b c : Z) :
  Z.odd b = true → Z.odd c = true →
  Z.odd (Z.min (b + 10) c) = true ∧ Z.odd (Z.max (b - 10) c) = true.
Proof.
  intros Hb Hc. split.
  - destruct (Z.min_spec (b + 10) c) as [[_ ->]|[_ ->]]; [|done].
    by rewrite Z.odd_add, Hb.
  - destruct (Z.max_spec (b - 10) c) as [[_ ->]|[_ ->]]; [done|].
    by rewrite Z.odd_sub, Hb.
Qed.

Lemma odd_lor_1 (b : Z) : Z.odd b = true → Z.lor b 1 = b.
Proof.
  intros Hb. apply Z.bits_inj'. intros n Hn.
  rewrite Z.lor_spec. destruct (decide (n = 0)) as [->|Hne].
  - by rewrite Z.bit0_odd, Hb.
  - rewrite (Z.bits_above_log2 1 n) by (simpl; lia).
    apply orb_false_r.
Qed.

Lemma params_ok_run (path : string) (a : list (list (px Z))) ticks :
  params_ok (run_loop (new_tool path a) ticks).1.1.
Proof.
  apply run_invariant.
  - intros s cx cy Hs. unfold params_ok.
    destruct (apply_blur_params s cx cy) as (-> & -> & _). exact Hs.
  - by intros s p Hs.
  - intros s key (Hr & Hb & Hodd).
    destruct (odd_step (blur_strength s) 199 Hodd eq_refl) as [Hup _].
    destruct (odd_step (blur_strength s) 11 Hodd eq_refl) as [_ Hdown].
    destruct (on_key_state s key)
      as [-> | [-> | [-> | [-> | [-> | (hs & snap & _ & ->)]]]]];
      unfold params_ok; simpl; repeat split; (done || lia).
  - unfold params_ok. simpl. repeat split; lia.
Qed.

Lemma press_S key (n : nat) (self : BlurTool) :
  press splitext has_writer key (S n) self
  = (key_pressed (press splitext has_writer key n self) key).1.1.
Proof. reflexivity. Qed.

Lemma press_plus (n : nat) (self : BlurTool) :
  radius self ≤ 300 →
  radius (press splitext has_writer ord_plus n self)
  = Z.min (radius self + 10 * Z.of_nat n) 300.
Proof.
  intros Hr. induction n as [|n IH]; [simpl; lia|].
  rewrite press_S. unfold on_key. simpl. rewrite IH. lia.
Qed.

Lemma press_minus (n : nat) (self : BlurTool) :
  10 ≤ radius self →
  radius (press splitext has_writer ord_minus n self)
  = Z.max (radius self - 10 * Z.of_nat n) 10.
Proof.
  intros Hr. induction n as [|n IH]; [simpl; lia|].
  rewrite press_S. unfold on_key. simpl. rewrite IH. lia.
Qed.

Lemma press_rbracket (n : nat) (self : BlurTool) :
  blur_strength self ≤ 199 →
  blur_strength (press splitext has_writer ord_rbracket n self)
  = Z.min (blur_strength self + 10 * Z.of_nat n) 199.
Proof.
  intros Hr. induction n as [|n IH]; [simpl; lia|].
  rewrite press_S. unfold on_key. simpl. rewrite IH. lia.
Qed.

Lemma press_lbracket (n : nat) (self : BlurTool) :
  11 ≤ blur_strength self →
  blur_strength (press splitext has_writer ord_lbracket n self)
  = Z.max (blur_strength self - 10 * Z.of_nat n) 11.
Proof.
  intros Hr. induction n as [|n IH]; [simpl; lia|].
  rewrite press_S. unfold on_key. simpl. rewrite IH. lia.
Qed.

(** C7. The radius starts at 50 and the strength at 51. Whatever the user
    does, the radius stays in [[10, 300]] and the strength in [[11, 199]];
    a key adds or removes 10 and clamps the result ([min] with the upper
    bound, [max] with the lower one), so that the value moves by 10 or lands
    on the bound; and pressing the same key again and again reaches the
    bound and stays on it. *)
Theorem parameters_stay_in_bounds (path : string) (a : list (list (px Z)))
    (ticks : list tick) :
  let self := (run_loop (new_tool path a) ticks).1.1 in
  (radius (new_tool path a) = 50 ∧ blur_strength (new_tool path a) = 51)
  ∧ (10 ≤ radius self ≤ 300 ∧ 11 ≤ blur_strength self ≤ 199)
  ∧ (radius (key_pressed self ord_plus).1.1 = Z.min (radius self + 10) 300
     ∧ radius (key_pressed self ord_equals).1.1
       = Z.min (radius self + 10) 300
     ∧ radius (key_pressed self ord_minus).1.1
       = Z.max (radius self - 10) 10
     ∧ blur_strength (key_pressed self ord_rbracket).1.1
       = Z.min (blur_strength self + 10) 199
     ∧ blur_strength (key_pressed self ord_lbracket).1.1
       = Z.max (blur_strength self - 10) 11)
  ∧ ((radius (key_pressed self ord_plus).1.1 = radius self + 10
      ∨ radius (key_pressed self ord_plus).1.1 = 300)
     ∧ (radius (key_pressed self ord_minus).1.1 = radius self - 10
        ∨ radius (key_pressed self ord_minus).1.1 = 10)
     ∧ (blur_strength (key_pressed self ord_rbracket).1.1
        = blur_strength self + 10
        ∨ blur_strength (key_pressed self ord_rbracket).1.1 = 199)
     ∧ (blur_strength (key_pressed self ord_lbracket).1.1
        = blur_strength self - 10
        ∨ blur_strength (key_pressed self ord_lbracket).1.1 = 11))
  ∧ (∀ n : nat, (29 ≤ n)%nat →
       radius (press splitext has_writer ord_plus n self) = 300
       ∧ radius (press splitext has_writer ord_minus n self) = 10)
  ∧ (∀ n : nat, (19 ≤ n)%nat →
       blur_strength (press splitext has_writer ord_rbracket n self) = 199
       ∧ blur_strength (press splitext has_writer ord_lbracket n self) = 11).
Proof.
  intros self.
  destruct (params_ok_run path a ticks) as (Hr & Hb & _). fold self in Hr, Hb.
  split; [done|]. split; [done|]. split; [done|].
  split; [unfold on_key; simpl; lia|]. split.
  - intros n Hn. rewrite press_plus, press_minus by lia. lia.
  - intros n Hn. rewrite press_rbracket, press_lbracket by lia. lia.
Qed.

(** C8. The undo key on an empty history leaves the tool as it is, prints
    ["Nothing to undo."], raises nothing and does not leave the loop, which
    goes on with the next turns. *)
Theorem undo_on_empty_history (self : BlurTool) (ticks : list tick) :
  history self = [] →
  key_pressed self ord_u = (self, [print "Nothing to undo."], false)
  ∧ body self (mkTick [] ord_u)
    = (self, [imshow (_display_frame circle_pixels text_pixels self);
              print "Nothing to undo."], false)
  ∧ run_loop self (mkTick [] ord_u :: ticks)
    = (let '(self', out, stop) := run_loop self ticks in
       (self',
        [imshow (_display_frame circle_pixels text_pixels self);
         print "Nothing to undo."] ++ out,
        stop)).
Proof.
  intros Hh. pose proof (on_key_undo_empty self Hh) as Hkey.
  assert (Hbody : body self (mkTick [] ord_u)
    = (self, [imshow (_display_frame circle_pixels text_pixels self);
              print "Nothing to undo."], false)).
  { unfold loop_body. simpl. change (Z.land ord_u 255) with ord_u.
    by rewrite Hkey. }
  split; [done|]. split; [done|].
  cbn [run]. rewrite Hbody. reflexivity.
Qed.

(** The save key when [cv2.imwrite] has an encoder for the output path: the
    live image is written to the base of the input path, then ["_blurred"],
    then its extension, and the loop is left. *)
Lemma save_with_writer (self : BlurTool) :
  (∀ p, (splitext p).1 +:+ (splitext p).2 = p) →
  has_writer (_output_path splitext self) = true →
  ∃ base ext,
    splitext (image_path self) = (base, ext)
    ∧ image_path self = base +:+ ext
    ∧ _output_path splitext self = base +:+ "_blurred" +:+ ext
    ∧ key_pressed self ord_q
      = (self,
         [imwrite (base +:+ "_blurred" +:+ ext) (live self);
          print ("Saved blurred image to: " +:+ base +:+ "_blurred" +:+ ext)],
         true).
Proof.
  intros Hjoin Hw. specialize (Hjoin (image_path self)).
  destruct (splitext (image_path self)) as [base ext] eqn:Hsplit.
  exists base, ext. simpl in Hjoin.
  assert (Hout : _output_path splitext self = base +:+ "_blurred" +:+ ext)
    by (unfold _output_path; by rewrite Hsplit).
  split; [done|]. split; [done|]. split; [done|].
  unfold on_key. simpl. by rewrite Hw, Hout.
Qed.

(** C9. The save key does not write the live image for every input path.
    The output path keeps the extension of the input path, and
    [cv2.imwrite] raises when it has no encoder for it, as for an image
    whose name has no extension: then nothing is written, no line is
    printed, the exception leaves the loop, and [cv2.destroyAllWindows()]
    is not reached. *)
Theorem save_raises_without_writer (self : BlurTool) (ticks : list tick) :
  has_writer (_output_path splitext self) = false →
  key_pressed self ord_q = (self, [uncaught "cv2.error"], true)
  ∧ run_loop self (mkTick [] ord_q :: ticks)
    = (self,
       [imshow (_display_frame circle_pixels text_pixels self);
        uncaught "cv2.error"],
       true)
  ∧ writes (run_loop self (mkTick [] ord_q :: ticks)).1.2 = [].
Proof.
  intros Hw.
  assert (Hkey : key_pressed self ord_q
                 = (self, [uncaught "cv2.error"], true))
    by (unfold on_key; simpl; by rewrite Hw).
  assert (Hrun : run_loop self (mkTick [] ord_q :: ticks)
    = (self,
       [imshow (_display_frame circle_pixels text_pixels self);
        uncaught "cv2.error"],
       true)).
  { cbn [run]. unfold loop_body. simpl.
    change (Z.land ord_q 255) with ord_q. by rewrite Hkey. }
  split; [done|]. split; [done|]. by rewrite Hrun.
Qed.

(** C10. In every state the tool can reach, the stored strength is odd, so
    that [blur_strength | 1], the kernel size [_apply_blur] uses, is the
    stored value itself. *)
Theorem blur_strength_always_odd (path : string) (a : list (list (px Z)))
    (ticks : list tick) :
  let self := (run_loop (new_tool path a) ticks).1.1 in
  Z.odd (blur_strength self) = true
  ∧ Z.lor (blur_strength self) 1 = blur_strength self
  ∧ ∀ roi cx cy x1 y1,
      roi_out roi cx cy x1 y1 (radius self) (blur_strength self)
      = np_where
          (np_eq (let m := mask roi cx cy x1 y1 (radius self) in
                  cv2_merge m m m) 255)
          (GaussianBlur roi (blur_strength self)) roi.
Proof.
  intros self.
  destruct (params_ok_run path a ticks) as (_ & _ & Hodd). fold self in Hodd.
  pose proof (odd_lor_1 _ Hodd) as Hlor.
  split; [done|]. split; [done|].
  intros roi cx cy x1 y1. unfold roi_out_of. by rewrite Hlor.
Qed.

(** ** The history *)

Lemma heap_ok_new_tool (path : string) (a : list (list (px Z))) :
  heap_ok (new_tool path a).
Proof.
  unfold heap_ok. simpl. split; [lia|]. split; [constructor|].
  apply NoDup_singleton.
Qed.

Lemma tracks_refl (self : BlurTool) : heap_ok self → tracks self self.
Proof.
  intros Hok. split; [done|]. split; [done|].
  exists (length (history self)), []. rewrite take_ge, app_nil_r by done.
  split; [done|]. split; [constructor|]. by apply Forall_forall.
Qed.

Lemma tracks_apply (self0 self : BlurTool) (cx cy : Z) :
  tracks self0 self → tracks self0 (apply_blur self cx cy).
Proof.
  intros Htr.
  destruct (box_of self cx cy) as [[[x1 y1] x2] y2] eqn:Hbox.
  destruct (degenerate (x1, y1, x2, y2)) eqn:Hdeg.
  { rewrite apply_blur_degenerate by (by rewrite Hbox). exact Htr. }
  destruct Htr as ((Hlive & Hhist & Hdup) & Hlen & k & news & Hk & Hnews & Hold).
  rewrite (apply_blur_eq self cx cy x1 y1 x2 y2) by done.
  apply NoDup_cons in Hdup as [Hnotin Hdup].
  rewrite Forall_forall in Hhist.
  unfold tracks, heap_ok. simpl.
  rewrite length_insert, length_app. simpl.
  split; [split; [lia|split]|split; [lia|]].
  - apply Forall_app. split.
    + apply Forall_forall. intros l Hl. specialize (Hhist l Hl). lia.
    + constructor; [lia | constructor].
  - rewrite app_comm_cons. apply NoDup_app. split; [by apply NoDup_cons|].
    split; [|apply NoDup_singleton].
    intros l Hl Hin. apply list_elem_of_singleton in Hin as ->.
    apply elem_of_cons in Hl as [Heq | Hl]; [lia|].
    specialize (Hhist _ Hl). lia.
  - exists k, (news ++ [length (heap self)]).
    split; [by rewrite Hk, app_assoc|]. split.
    + apply Forall_app. split; [done|]. constructor; [lia | constructor].
    + rewrite Forall_forall in Hold. apply Forall_forall. intros l Hl.
      assert (Hin : l ∈ history self)
        by (rewrite Hk; apply elem_of_app; by left).
      rewrite <- (Hold l Hl).
      rewrite deref_insert_ne by (intros Heq; apply Hnotin; by rewrite Heq).
      apply deref_app_l, Hhist, Hin.
Qed.

Lemma tracks_undo (self0 self : BlurTool) (hs : list nat) (snap : nat) :
  history self = hs ++ [snap] →
  tracks self0 self →
  tracks self0 (with_image (with_history self hs) snap).
Proof.
  intros Hh ((Hlive & Hhist & Hdup) & Hlen & k & news & Hk & Hnews & Hold).
  rewrite Hh in Hhist, Hdup, Hk.
  apply NoDup_cons in Hdup as [_ Hdup].
  apply NoDup_app in Hdup as (Hdup & Hsep & _).
  apply Forall_app in Hhist as [Hhist Hsnap].
  unfold tracks, heap_ok. simpl.
  split; [split; [by inversion Hsnap|split; [done|]]|split; [done|]].
  - apply NoDup_cons. split; [|done].
    intros Hin. apply (Hsep snap Hin), list_elem_of_singleton. reflexivity.
  - destruct news as [|x news _] using rev_ind.
    + rewrite app_nil_r in Hk.
      assert (Hlt : (length hs < k)%nat).
      { apply (f_equal length) in Hk.
        rewrite length_app, length_take in Hk. simpl in Hk. lia. }
      assert (Hhs : hs = take (length hs) (history self0)).
      { rewrite <- (take_app_length hs [snap]) at 1.
        rewrite Hk, take_take. f_equal. lia. }
      exists (length hs), []. rewrite app_nil_r, <- Hhs.
      split; [done|]. split; [constructor|].
      rewrite <- Hk in Hold. by apply Forall_app in Hold as [Hold _].
    + rewrite app_assoc in Hk. apply app_inj_tail in Hk as [-> ->].
      exists k, news. split; [done|]. split; [|done].
      by apply Forall_app in Hnews as [Hnews _].
Qed.

Lemma tracks_key (self0 self : BlurTool) (key : Z) :
  tracks self0 self → tracks self0 (key_pressed self key).1.1.
Proof.
  intros Htr.
  destruct (on_key_state self key)
    as [-> | [-> | [-> | [-> | [-> | (hs & snap & Hh & ->)]]]]];
    try exact Htr.
  by apply tracks_undo.
Qed.

Lemma tracks_run (self : BlurTool) (ticks : list tick) :
  heap_ok self → tracks self (run_loop self ticks).1.1.
Proof.
  intros Hok. apply (run_invariant (tracks self)).
  - intros s cx cy. apply tracks_apply.
  - by intros s p Hs.
  - intros s key. apply tracks_key.
  - by apply tracks_refl.
Qed.

(** An entry that is at the same place of the history before and after has
    the same contents. *)
Lemma tracks_entry (self self' : BlurTool) (i l : nat) :
  heap_ok self → tracks self self' →
  history self !! i = Some l → history self' !! i = Some l →
  deref (heap self') l = deref (heap self) l.
Proof.
  intros (_ & Hhist & _) (_ & _ & k & news & Hk & Hnews & Hold) Hi Hi'.
  rewrite Forall_forall in Hhist, Hnews, Hold.
  assert (Hl : (l < length (heap self))%nat)
    by (apply Hhist, list_elem_of_lookup; eauto).
  rewrite Hk in Hi'. apply lookup_app_Some in Hi' as [Hi' | [_ Hi']].
  - apply Hold, list_elem_of_lookup. eauto.
  - assert (length (heap self) ≤ l)%nat
      by (apply Hnews, list_elem_of_lookup; eauto).
    lia.
Qed.

(** C6. A click whose box is not degenerate pushes exactly one entry; the
    entry is a new object of the store, distinct from the live image, whose
    contents are the whole live image as it was before the click; the older
    entries keep their contents; and whatever the user does next, an entry
    that is still at its place in the history has the contents it had. *)
Theorem snapshot_pushed_and_isolated (self : BlurTool) (cx cy : Z) :
  heap_ok self →
  degenerate (box_of self cx cy) = false →
  let self' := apply_blur self cx cy in
  let snap := length (heap self) in
  history self' = history self ++ [snap]
  ∧ heap self !! snap = None
  ∧ image self' = image self ∧ image self' ≠ snap
  ∧ deref (heap self') snap = live self
  ∧ snapshots self' = snapshots self ++ [live self]
  ∧ heap_ok self'
  ∧ ∀ (ticks : list tick) (i l : nat),
      history self' !! i = Some l →
      history (run_loop self' ticks).1.1 !! i = Some l →
      deref (heap (run_loop self' ticks).1.1) l = deref (heap self') l.
Proof.
  intros Hok Hnd self' snap. pose proof Hok as (Hlive & Hhist & Hdup).
  assert (Hok' : heap_ok self')
    by (apply (tracks_apply self self cx cy), tracks_refl, Hok).
  destruct (box_of self cx cy) as [[[x1 y1] x2] y2] eqn:Hbox.
  pose proof (apply_blur_eq self cx cy x1 y1 x2 y2 Hlive Hbox Hnd) as Heq.
  fold self' in Heq.
  assert (Hsnap : deref (heap self') snap = live self).
  { rewrite Heq. simpl. rewrite deref_insert_ne by (unfold snap; lia).
    apply deref_app_new. }
  split; [by rewrite Heq|].
  split; [by apply lookup_ge_None|].
  split; [by rewrite Heq|].
  split; [rewrite Heq; simpl; unfold snap; lia|].
  split; [done|].
  split.
  { rewrite Heq in Hsnap. rewrite Heq. unfold snap in *.
    unfold snapshots at 1. simpl in *.
    rewrite fmap_app. simpl. rewrite Hsnap. f_equal.
    by apply snapshots_frame. }
  split; [done|].
  intros ticks i l Hi Hi'.
  by apply (tracks_entry self' _ i l Hok' (tracks_run self' ticks Hok')).
Qed.

(** ** Every state the tool reaches is well formed *)

Lemma images_ok_run (path : string) (a : list (list (px Z))) (h w : nat)
    (ticks : list tick) :
  shape_preserving GaussianBlur →
  rect h w a →
  images_ok h w (run_loop (new_tool path a) ticks).1.1.
Proof.
  intros Hblur Ha. apply (run_invariant (images_ok h w)).
  - intros s cx cy (Hok & Hlive & Hsnaps). pose proof Hok as (Himg & _).
    split; [apply (tracks_apply s s cx cy), tracks_refl, Hok|].
    split; [by apply apply_blur_rect|].
    destruct (box_of s cx cy) as [[[x1 y1] x2] y2] eqn:Hbox.
    destruct (degenerate (x1, y1, x2, y2)) eqn:Hdeg.
    + by rewrite apply_blur_degenerate by (by rewrite Hbox).
    + rewrite (apply_blur_eq s cx cy x1 y1 x2 y2) by done.
      unfold snapshots. simpl. rewrite fmap_app. simpl.
      rewrite snapshots_frame by done.
      rewrite deref_insert_ne by lia. rewrite deref_app_new.
      apply Forall_app. split; [done|]. by constructor.
  - by intros s p Hs.
  - intros s key Hs.
    destruct (on_key_state s key)
      as [-> | [-> | [-> | [-> | [-> | (hs & snap & Hh & ->)]]]]];
      try exact Hs.
    destruct Hs as (Hok & Hlive & Hsnaps).
    split; [apply (tracks_undo s s hs snap Hh), tracks_refl, Hok|].
    unfold snapshots, live in *. simpl. rewrite Hh, fmap_app in Hsnaps.
    apply Forall_app in Hsnaps as [Hhs Hsnap].
    split; [by inversion Hsnap | done].
  - split; [apply heap_ok_new_tool|]. split; [exact Ha | constructor].
Qed.

(** The kernel size handed to [cv2.GaussianBlur] is odd and positive, and
    the radius handed to [cv2.circle] is positive. *)
Lemma library_arguments_valid (path : string) (a : list (list (px Z)))
    (ticks : list tick) :
  let self := (run_loop (new_tool path a) ticks).1.1 in
  Z.odd (Z.lor (blur_strength self) 1) = true
  ∧ 0 < Z.lor (blur_strength self) 1
  ∧ 0 < radius self.
Proof.
  intros self.
  destruct (params_ok_run path a ticks) as (Hr & Hb & Hodd).
  fold self in Hr, Hb, Hodd.
  rewrite (odd_lor_1 _ Hodd). split; [done | lia].
Qed.

End Properties.

(** ** [posixpath.splitext] cuts its argument in two *)

Lemma str_take_drop (n : nat) (p : string) :
  str_take n p +:+ str_drop n p = p.
Proof.
  revert p. induction n as [|n IH]; intros [|a p]; simpl; try done.
  change (String a (str_take n p +:+ str_drop n p) = String a p).
  by rewrite IH.
Qed.

Lemma posix_splitext_join (p : string) :
  (posix_splitext p).1 +:+ (posix_splitext p).2 = p.
Proof.
  unfold posix_splitext. destruct (_ && _); simpl.
  - apply str_take_drop.
  - induction p as [|a p IH]; [done|].
    change (String a (p +:+ "") = String a p). by rewrite IH.
Qed.

(** ** The concrete session *)

Lemma demo_image_rect : rect 24 32 demo_image.
Proof.
  unfold demo_image. split.
  - by rewrite length_fmap, length_seq.
  - rewrite Forall_fmap. apply Forall_forall. intros y _. reflexivity.
Qed.

Lemma demo_tool_ok : heap_ok demo_tool.
Proof.
  unfold heap_ok. simpl. split; [lia|]. split; [constructor|].
  apply NoDup_singleton.
Qed.

Lemma demo_tool_rect : rect 24 32 (live demo_tool).
Proof. exact demo_image_rect. Qed.

Lemma mean_blur_shape : shape_preserving mean_blur.
Proof.
  intros roi k h w [Hh Hw]. unfold mean_blur. split.
  - by rewrite length_fmap.
  - rewrite Forall_fmap. eapply Forall_impl; [exact Hw|].
    intros row Hrow. simpl. by rewrite length_fmap.
Qed.

(** The demo tool is the new tool after four presses of ["-"]. *)
Example demo_tool_reached :
  press posix_splitext known_writer ord_minus 4 (new_tool "pics/me.jpg" demo_image)
  = demo_tool.
Proof. reflexivity. Qed.

Example demo_box : box_of demo_tool 16 12 = (6, 2, 26, 22).
Proof. reflexivity. Qed.

Example demo_output_path :
  _output_path posix_splitext demo_tool = "pics/me_blurred.jpg"%string.
Proof. reflexivity. Qed.

Example posix_splitext_two_dots :
  posix_splitext "pics/me.2024.jpg" = ("pics/me.2024"%string, ".jpg"%string).
Proof. reflexivity. Qed.

Example posix_splitext_dotfile :
  posix_splitext "a.b/.hidden" = ("a.b/.hidden"%string, ""%string).
Proof. reflexivity. Qed.

Lemma undo_after_apply_restores_witness :
  heap_ok demo_tool
  ∧ degenerate (box_of demo_tool 16 12) = false
  ∧ ∃ self',
      on_key posix_splitext known_writer
        (_apply_blur mean_blur disc_pixels demo_tool 16 12) ord_u
      = (self', [print "Undo."], false)
      ∧ live self' = live demo_tool
      ∧ history self' = history demo_tool
      ∧ snapshots self' = snapshots demo_tool
      ∧ radius self' = radius demo_tool
      ∧ blur_strength self' = blur_strength demo_tool.
Proof.
  split; [exact demo_tool_ok|]. split; [reflexivity|].
  apply undo_after_apply_restores; [exact demo_tool_ok | reflexivity].
Defined.

Lemma degenerate_click_is_noop_witness :
  box_of demo_tool (-1000) (-1000) = (0, 0, -990, -990)
  ∧ (-990 ≤ 0 ∨ -990 ≤ 0)
  ∧ _apply_blur mean_blur disc_pixels demo_tool (-1000) (-1000) = demo_tool
  ∧ _mouse_callback mean_blur disc_pixels demo_tool EVENT_LBUTTONDOWN
      (-1000) (-1000) = demo_tool.
Proof.
  split; [reflexivity|]. split; [left; lia|].
  destruct (degenerate_click_is_noop mean_blur disc_pixels demo_tool
              (-1000) (-1000) 0 0 (-990) (-990) eq_refl)
    as (Happly & Hmouse & _); [left; lia|].
  split; [exact Happly | exact Hmouse].
Defined.

Lemma bounding_box_clamped_witness :
  shape_preserving mean_blur
  ∧ heap_ok demo_tool
  ∧ rect 24 32 (live demo_tool) ∧ (0 < 24)%nat
  ∧ box_of demo_tool 16 12 = (6, 2, 26, 22)
  ∧ (6 = Z.max (16 - radius demo_tool) 0
     ∧ 2 = Z.max (12 - radius demo_tool) 0
     ∧ 26 = Z.min (16 + radius demo_tool) (Z.of_nat 32)
     ∧ 22 = Z.min (12 + radius demo_tool) (Z.of_nat 24)).
Proof.
  split; [exact mean_blur_shape|]. split; [exact demo_tool_ok|].
  split; [exact demo_tool_rect|]. split; [lia|]. split; [reflexivity|].
  destruct (bounding_box_clamped mean_blur disc_pixels demo_tool 16 12
              24 32 6 2 26 22 mean_blur_shape demo_tool_ok demo_tool_rect)
    as [Hbox _]; [lia | reflexivity | exact Hbox].
Defined.

Lemma outside_box_unchanged_witness :
  heap_ok demo_tool
  ∧ rect 24 32 (live demo_tool)
  ∧ box_of demo_tool 16 12 = (6, 2, 26, 22)
  ∧ degenerate (6, 2, 26, 22) = false
  ∧ rect 24 32 (live (_apply_blur mean_blur disc_pixels demo_tool 16 12))
  ∧ ∀ y x : nat,
      ¬ (6 ≤ Z.of_nat x < 26 ∧ 2 ≤ Z.of_nat y < 22) →
      at2 (live (_apply_blur mean_blur disc_pixels demo_tool 16 12)) y x
      = at2 (live demo_tool) y x.
Proof.
  split; [exact demo_tool_ok|]. split; [exact demo_tool_rect|].
  split; [reflexivity|]. split; [reflexivity|].
  apply outside_box_unchanged;
    [exact demo_tool_ok | exact demo_tool_rect | reflexivity | reflexivity].
Defined.

Lemma hard_mask_select_witness :
  shape_preserving mean_blur
  ∧ heap_ok demo_tool
  ∧ rect 24 32 (live demo_tool)
  ∧ box_of demo_tool 16 12 = (6, 2, 26, 22)
  ∧ degenerate (6, 2, 26, 22) = false
  ∧ Z.of_nat 0 < 22 - 2 ∧ Z.of_nat 0 < 26 - 6
  ∧ let roi := slice2 (live demo_tool) 2 22 6 26 in
    ∃ m orig blurred,
      at2 (mask_of disc_pixels roi 16 12 6 2 (radius demo_tool)) 0 0 = Some m
      ∧ (m = 0 ∨ m = 255)
      ∧ (m = 255 ↔
         disc_pixels (16 - 6, 12 - 2) (radius demo_tool) (-1)
           (Z.of_nat 0) (Z.of_nat 0) = true)
      ∧ at2 (live demo_tool) (Z.to_nat 2 + 0) (Z.to_nat 6 + 0) = Some orig
      ∧ at2 roi 0 0 = Some orig
      ∧ at2 (mean_blur roi (Z.lor (blur_strength demo_tool) 1)) 0 0
        = Some blurred
      ∧ at2 (live (_apply_blur mean_blur disc_pixels demo_tool 16 12))
          (Z.to_nat 2 + 0) (Z.to_nat 6 + 0)
        = Some (if m =? 255 then blurred else orig).
Proof.
  split; [exact mean_blur_shape|]. split; [exact demo_tool_ok|].
  split; [exact demo_tool_rect|]. split; [reflexivity|].
  split; [reflexivity|]. split; [lia|]. split; [lia|].
  apply (hard_mask_select mean_blur disc_pixels demo_tool 16 12 24 32
           6 2 26 22 0 0 mean_blur_shape demo_tool_ok demo_tool_rect);
    [reflexivity | reflexivity | lia | lia].
Defined.

Lemma snapshot_pushed_and_isolated_witness :
  heap_ok demo_tool
  ∧ degenerate (box_of demo_tool 16 12) = false
  ∧ let self' := _apply_blur mean_blur disc_pixels demo_tool 16 12 in
    history self' = history demo_tool ++ [2%nat]
    ∧ deref (heap self') 2 = live demo_tool
    ∧ snapshots self' = snapshots demo_tool ++ [live demo_tool].
Proof.
  split; [exact demo_tool_ok|]. split; [reflexivity|].
  destruct (snapshot_pushed_and_isolated mean_blur disc_pixels no_text
              posix_splitext known_writer demo_tool 16 12 demo_tool_ok)
    as (Hpush & _ & _ & _ & Hsnap & Hsnaps & _); [reflexivity|].
  split; [exact Hpush|]. split; [exact Hsnap | exact Hsnaps].
Defined.

Lemma undo_on_empty_history_witness :
  history demo_tool = []
  ∧ on_key posix_splitext known_writer demo_tool ord_u
    = (demo_tool, [print "Nothing to undo."], false).
Proof.
  split; [reflexivity|].
  destruct (undo_on_empty_history mean_blur disc_pixels no_text
              posix_splitext known_writer demo_tool []) as [Hkey _];
    [reflexivity | exact Hkey].
Defined.

Lemma save_raises_without_writer_witness :
  known_writer (_output_path posix_splitext (new_tool "noext" tiny_image))
  = false
  ∧ _output_path posix_splitext (new_tool "noext" tiny_image)
    = "noext_blurred"%string
  ∧ on_key posix_splitext known_writer (new_tool "noext" tiny_image) ord_q
    = (new_tool "noext" tiny_image, [uncaught "cv2.error"], true)
  ∧ run mean_blur disc_pixels no_text posix_splitext known_writer
      (new_tool "noext" tiny_image) [mkTick [] ord_q]
    = (new_tool "noext" tiny_image,
       [imshow (_display_frame disc_pixels no_text
                  (new_tool "noext" tiny_image));
        uncaught "cv2.error"],
       true).
Proof.
  split; [reflexivity|]. split; [reflexivity|].
  destruct (save_raises_without_writer mean_blur disc_pixels no_text
              posix_splitext known_writer (new_tool "noext" tiny_image) []
              eq_refl) as (Hkey & Hrun & _).
  split; [exact Hkey | exact Hrun].
Defined.

(** ** A click, computed *)

Example tiny_click :
  _apply_blur mean_blur disc_pixels tiny_tool 1 1
  = mkBlurTool
      [tiny_image;
       [[Px 0 0 0; Px 25 25 25; Px 20 20 20; Px 30 30 30];
        [Px 25 25 25; Px 25 25 25; Px 60 60 60; Px 70 70 70];
        [Px 80 80 80; Px 90 90 90; Px 100 100 100; Px 110 110 110]];
       tiny_image]
      "t.png" 0%nat 1%nat [2%nat] 1 11 (-1, -1).
Proof. reflexivity. Qed.

Example tiny_click_undo :
  (on_key posix_splitext known_writer (_apply_blur mean_blur disc_pixels tiny_tool 1 1)
     ord_u).1.1
  = mkBlurTool
      [tiny_image;
       [[Px 0 0 0; Px 25 25 25; Px 20 20 20; Px 30 30 30];
        [Px 25 25 25; Px 25 25 25; Px 60 60 60; Px 70 70 70];
        [Px 80 80 80; Px 90 90 90; Px 100 100 100; Px 110 110 110]];
       tiny_image]
      "t.png" 0%nat 2%nat [] 1 11 (-1, -1).
Proof. reflexivity. Qed.

Example tiny_click_outside :
  _apply_blur mean_blur disc_pixels tiny_tool (-1000) (-1000) = tiny_tool.
Proof. reflexivity. Qed.

Example tiny_run :
  let '(self, out, stop) :=
    run mean_blur disc_pixels no_text posix_splitext known_writer
      (new_tool "t.png" tiny_image)
      [mkTick [] 93; mkTick [(0, 2, 1)] 45; mkTick [] 117; mkTick [] 27;
       mkTick [] 93] in
  (radius self, blur_strength self, history self, mouse_pos self, stop)
  = (40, 61, [], (2, 1), true)
  ∧ out
    = [imshow (_display_frame disc_pixels no_text
                 (new_tool "t.png" tiny_image));
       print "Blur strength: 61";
       imshow (_display_frame disc_pixels no_text
                 (with_blur_strength (new_tool "t.png" tiny_image) 61));
       print "Radius: 40";
       imshow (_display_frame disc_pixels no_text
                 (mkBlurTool [tiny_image; tiny_image] "t.png" 0%nat 1%nat []
                    40 61 (2, 1)));
       print "Nothing to undo.";
       imshow (_display_frame disc_pixels no_text
                 (mkBlurTool [tiny_image; tiny_image] "t.png" 0%nat 1%nat []
                    40 61 (2, 1)));
       print "Exited without saving.";
       destroyAllWindows].
Proof. split; reflexivity. Qed.

(** Twenty presses of ["]"] from the start, then twenty of ["["]: the
    strength leaves the values [51 + 10 k] at the upper bound. *)
Example strength_walk :
  let up := press posix_splitext known_writer ord_rbracket 20 (new_tool "t.png" tiny_image) in
  blur_strength up = 199
  ∧ blur_strength (press posix_splitext known_writer ord_lbracket 1 up) = 189
  ∧ blur_strength (press posix_splitext known_writer ord_lbracket 20 up) = 11.
Proof. repeat split. Qed.

(** ** The extension [posixpath.splitext] returns

    It is empty, or a dot followed by characters that are neither a dot nor
    a separator. *)

Lemma rfind_from_neg (c : ascii) (p : string) (i : Z) :
  0 ≤ i → rfind_from c p i < 0 → contains c p = false.
Proof.
  revert i. induction p as [|a p IH]; intros i Hi Hr; [done|].
  simpl in *. destruct (Z.geb_spec (rfind_from c p (i + 1)) 0) as [Hge|Hlt].
  - lia.
  - rewrite (IH (i + 1)) by lia. destruct (Ascii.eqb a c); [lia | done].
Qed.

Lemma rfind_from_lower (c : ascii) (p : string) (i : Z) :
  0 ≤ i → -1 ≤ rfind_from c p i.
Proof.
  revert i. induction p as [|a p IH]; intros i Hi; simpl; [lia|].
  destruct (Z.geb_spec (rfind_from c p (i + 1)) 0); [lia|].
  destruct (Ascii.eqb a c); lia.
Qed.

Lemma rfind_from_found (c : ascii) (p : string) (i : Z) :
  0 ≤ i → 0 ≤ rfind_from c p i →
  ∃ (n : nat) (e : string),
    rfind_from c p i = i + Z.of_nat n
    ∧ str_drop n p = String c e ∧ contains c e = false.
Proof.
  revert i. induction p as [|a p IH]; intros i Hi Hr; simpl in *; [lia|].
  destruct (Z.geb_spec (rfind_from c p (i + 1)) 0) as [Hge|Hlt].
  - destruct (IH (i + 1)) as (n & e & Hn & Hdrop & He); [lia | lia |].
    exists (S n), e. split; [lia | done].
  - destruct (Ascii.eqb_spec a c) as [->|Hne]; [|lia].
    exists 0%nat, p. split; [lia|]. split; [done|].
    apply (rfind_from_neg c p (i + 1)); lia.
Qed.

Lemma str_drop_add (n m : nat) (p : string) :
  str_drop (n + m) p = str_drop m (str_drop n p).
Proof.
  revert p. induction n as [|n IH]; intros p; [done|].
  destruct p as [|a p]; simpl; [by destruct m | apply IH].
Qed.

Lemma contains_drop (c : ascii) (p : string) (n : nat) :
  contains c p = false → contains c (str_drop n p) = false.
Proof.
  revert p. induction n as [|n IH]; intros p Hp; [done|].
  destruct p as [|a p]; [done|]. simpl in *.
  apply orb_false_iff in Hp as [_ Hp]. by apply IH.
Qed.

Lemma posix_splitext_ext (p : string) :
  (posix_splitext p).2 = ""%string
  ∨ ∃ e, (posix_splitext p).2 = String "." e
         ∧ contains "." e = false ∧ contains "/" e = false.
Proof.
  unfold posix_splitext, rfind.
  destruct (_ && _) eqn:Hcond; [|by left]. right. simpl.
  apply andb_prop in Hcond as [Hgt _]. apply Z.gtb_lt in Hgt.
  pose proof (rfind_from_lower "/" p 0 ltac:(lia)) as Hsep.
  destruct (rfind_from_found "." p 0) as (nd & e & Hnd & Hdrop & He);
    [lia | lia |].
  replace (Z.to_nat (rfind_from "." p 0)) with nd by lia. exists e.
  split; [done|]. split; [done|].
  destruct (Z.le_gt_cases 0 (rfind_from "/" p 0)) as [Hs|Hs].
  - destruct (rfind_from_found "/" p 0) as (ns & e' & Hns & Hdrop' & He');
      [lia | lia |].
    assert (Hlt : (ns < nd)%nat) by lia.
    replace nd with (ns + S (nd - ns - 1))%nat in Hdrop by lia.
    rewrite str_drop_add, Hdrop' in Hdrop. simpl in Hdrop.
    apply (contains_drop "/" e' (nd - ns - 1)) in He'.
    rewrite Hdrop in He'. simpl in He'. done.
  - apply (rfind_from_neg "/" p 0) in Hs; [|lia].
    apply (contains_drop "/" p nd) in Hs. rewrite Hdrop in Hs. done.
Qed.

(** * Further properties of the tool *)

Section Session.

Variable GaussianBlur : list (list (px Z)) → Z → list (list (px Z)).
Variable circle_pixels : Z * Z → Z → Z → Z → Z → bool.
Variable text_pixels : string → Z * Z → Z → Z → bool.
Variable splitext : string → string * string.
Variable has_writer : string → bool.

Local Abbreviation apply_blur := (_apply_blur GaussianBlur circle_pixels).
Local Abbreviation mouse_callback :=
  (_mouse_callback GaussianBlur circle_pixels).
Local Abbreviation deliver :=
  (foldl (λ s e, _mouse_callback GaussianBlur circle_pixels s e.1.1 e.1.2 e.2)).
Local Abbreviation key_pressed := (on_key splitext has_writer).
Local Abbreviation undo := (press splitext has_writer ord_u).
Local Abbreviation display_frame := (_display_frame circle_pixels text_pixels).
Local Abbreviation body :=
  (loop_body GaussianBlur circle_pixels text_pixels splitext has_writer).
Local Abbreviation run_loop :=
  (run GaussianBlur circle_pixels text_pixels splitext has_writer).
Local Abbreviation main_of :=
  (main GaussianBlur circle_pixels text_pixels splitext has_writer).

(** ** Undo, in any state *)

(** X1. Whenever the history is not empty, the undo key makes its last
    snapshot the live image and removes it from the history: the snapshots
    before the key are the snapshots after it followed by the new live
    image. The store and the parameters are untouched. *)
Theorem undo_pops_latest_snapshot (self : BlurTool) :
  history self ≠ [] →
  ∃ self',
    key_pressed self ord_u = (self', [print "Undo."], false)
    ∧ snapshots self = snapshots self' ++ [live self']
    ∧ length (history self) = S (length (history self'))
    ∧ heap self' = heap self
    ∧ radius self' = radius self
    ∧ blur_strength self' = blur_strength self
    ∧ mouse_pos self' = mouse_pos self.
Proof.
  intros Hne.
  destruct (history self) as [|x hs0] eqn:Hh using rev_ind; [done|].
  clear IHhs0. eexists. split; [by apply on_key_undo|].
  unfold snapshots, live. simpl. rewrite Hh, fmap_app, length_app. simpl.
  repeat split. lia.
Qed.

(** [n + 1] presses of the undo key on a history with at least that many
    entries. *)
Lemma undo_many (n : nat) (self : BlurTool) (pre rest : list nat) (x : nat) :
  history self = pre ++ x :: rest → length rest = n →
  heap (undo (S n) self) = heap self
  ∧ history (undo (S n) self) = pre
  ∧ image (undo (S n) self) = x.
Proof.
  revert pre x rest. induction n as [|n IH]; intros pre x rest Hh Hlen.
  - destruct rest; [|done]. unfold press. simpl.
    by rewrite (on_key_undo splitext has_writer self pre x Hh).
  - destruct rest as [|y rest]; [done|].
    destruct (IH (pre ++ [x]) y rest) as (Hheap & Hhist & _).
    { by rewrite <- app_assoc. }
    { simpl in Hlen. lia. }
    rewrite press_S.
    rewrite (on_key_undo splitext has_writer (undo (S n) self) pre x Hhist). simpl.
    done.
Qed.

(** What a burst of mouse events does to a well-formed tool: the history
    grows at its end, the first new entry holds the live image as it was,
    and the old entries keep their contents. *)
Lemma deliver_extends (evs : list (Z * Z * Z)) (self : BlurTool) :
  heap_ok self →
  heap_ok (deliver self evs)
  ∧ ∃ news,
      history (deliver self evs) = history self ++ news
      ∧ (news = [] → live (deliver self evs) = live self)
      ∧ (∀ x rest, news = x :: rest →
           deref (heap (deliver self evs)) x = live self)
      ∧ Forall (λ l, deref (heap (deliver self evs)) l = deref (heap self) l)
          (history self).
Proof.
  revert self. induction evs as [|[[e x] y] evs IH]; intros self Hok.
  { split; [done|]. exists []. rewrite app_nil_r. split; [done|].
    split; [done|]. split; [done|]. by apply Forall_forall. }
  simpl.
  assert (Hstep :
    (heap (mouse_callback self e x y) = heap self
     ∧ history (mouse_callback self e x y) = history self
     ∧ image (mouse_callback self e x y) = image self)
    ∨ ∃ x1 y1 x2 y2,
        box_of self x y = (x1, y1, x2, y2)
        ∧ degenerate (x1, y1, x2, y2) = false
        ∧ mouse_callback self e x y = apply_blur self x y).
  { unfold _mouse_callback.
    destruct (e =? EVENT_MOUSEMOVE); [by left|].
    destruct (e =? EVENT_LBUTTONDOWN); [|by left].
    destruct (box_of self x y) as [[[x1 y1] x2] y2] eqn:Hbox.
    destruct (degenerate (x1, y1, x2, y2)) eqn:Hdeg.
    - left. by rewrite apply_blur_degenerate by (by rewrite Hbox).
    - right. by exists x1, y1, x2, y2. }
  destruct Hstep as [(Hheap & Hhist & Himg) | (x1 & y1 & x2 & y2 & Hbox & Hnd & Heq)].
  - assert (Hok1 : heap_ok (mouse_callback self e x y))
      by (unfold heap_ok; by rewrite Hheap, Hhist, Himg).
    destruct (IH _ Hok1) as (Hok' & news & Hnews & Hnil & Hcons & Hold).
    unfold live in *. rewrite Hheap, Hhist, Himg in *.
    split; [done|]. by exists news.
  - pose proof Hok as (Hlive & Hin & Hdup).
    assert (Hok1 : heap_ok (mouse_callback self e x y)).
    { rewrite Heq. apply (tracks_apply _ _ self self x y), tracks_refl, Hok. }
    destruct (IH _ Hok1) as (Hok' & news & Hnews & _ & _ & Hold).
    rewrite (apply_blur_eq _ _ self x y x1 y1 x2 y2) in Heq by done.
    remember (mouse_callback self e x y) as s1 eqn:Hs1. clear Hs1.
    assert (Hh1 : history s1 = history self ++ [length (heap self)])
      by (by rewrite Heq).
    assert (Hsnap : deref (heap s1) (length (heap self)) = live self).
    { rewrite Heq. simpl. rewrite deref_insert_ne by lia.
      apply deref_app_new. }
    assert (Hkeep : ∀ l, l ∈ history self →
                         deref (heap s1) l = deref (heap self) l).
    { apply NoDup_cons in Hdup as [Hnotin _]. rewrite Forall_forall in Hin.
      intros l Hl. rewrite Heq. simpl.
      rewrite deref_insert_ne by (intros Hi; apply Hnotin; by rewrite Hi).
      apply deref_app_l, Hin, Hl. }
    rewrite Hh1 in Hnews, Hold. apply Forall_app in Hold as [Hold Hnew].
    apply Forall_inv in Hnew. rewrite Forall_forall in Hold.
    split; [done|]. exists (length (heap self) :: news).
    split; [by rewrite Hnews, <- app_assoc|].
    split; [done|]. split.
    + intros ? ? [= <- _]. by rewrite Hnew.
    + apply Forall_forall. intros l Hl. rewrite (Hold l Hl). by apply Hkeep.
Qed.

(** X2. Multi-level undo. After any burst of mouse events (moves, clicks
    that take effect, clicks that do not), pressing the undo key once for
    each entry the burst pushed gives back the live image, the history and
    the snapshots as they were before the burst. *)
Theorem undo_reverts_burst (self : BlurTool) (evs : list (Z * Z * Z)) :
  heap_ok self →
  let self' := deliver self evs in
  let n := (length (history self') - length (history self))%nat in
  live (undo n self') = live self
  ∧ history (undo n self') = history self
  ∧ snapshots (undo n self') = snapshots self.
Proof.
  intros Hok self' n.
  destruct (deliver_extends evs self Hok)
    as (_ & news & Hnews & Hnil & Hcons & Hold).
  fold self' in Hnews, Hnil, Hcons, Hold.
  assert (Hn : n = length news)
    by (unfold n; rewrite Hnews, length_app; lia).
  assert (Hsn : deref (heap self') <$> history self = snapshots self)
    by (by apply Forall_fmap_ext_1).
  destruct news as [|x rest].
  - rewrite Hn. simpl. rewrite app_nil_r in Hnews.
    split; [by apply Hnil|]. split; [done|].
    unfold snapshots at 1. by rewrite Hnews.
  - destruct (undo_many (length rest) self' (history self) rest x Hnews
                eq_refl) as (Hheap & Hhist & Himg).
    rewrite Hn. simpl length.
    unfold live, snapshots. rewrite Hheap, Hhist, Himg.
    split; [by apply (Hcons x rest)|]. done.
Qed.

(** ** The image that was loaded *)

(** X3. [self.original], the array [cv2.imread] returned, is never written
    to: in every state the tool reaches it still holds the loaded image, it
    is an object other than the live image and than every history entry,
    and [self.image_path] is the path the tool was created with. *)
Theorem original_is_never_modified (path : string) (a : list (list (px Z)))
    (ticks : list tick) :
  let self := (run_loop (new_tool path a) ticks).1.1 in
  deref (heap self) (original self) = a
  ∧ original self ≠ image self
  ∧ (original self ∉ history self)
  ∧ image_path self = path.
Proof.
  set (J := λ s : BlurTool,
    heap_ok s ∧ (original s < length (heap s))%nat
    ∧ original s ≠ image s ∧ (original s ∉ history s)
    ∧ deref (heap s) (original s) = a ∧ image_path s = path).
  assert (HJ : J (run_loop (new_tool path a) ticks).1.1).
  { apply (run_invariant GaussianBlur circle_pixels text_pixels splitext has_writer J);
      unfold J.
    - intros s cx cy (Hok & Hlt & Hni & Hnh & Hd & Hp).
      destruct (box_of s cx cy) as [[[x1 y1] x2] y2] eqn:Hbox.
      destruct (degenerate (x1, y1, x2, y2)) eqn:Hdeg.
      { rewrite apply_blur_degenerate by (by rewrite Hbox). tauto. }
      split; [apply (tracks_apply _ _ s s cx cy), tracks_refl, Hok|].
      pose proof Hok as (Hlive & _).
      rewrite (apply_blur_eq _ _ s cx cy x1 y1 x2 y2) by done. simpl.
      rewrite length_insert, length_app. simpl.
      split; [lia|]. split; [done|]. split.
      + rewrite elem_of_app, list_elem_of_singleton. intros [?|?]; [done|lia].
      + split; [|done]. rewrite deref_insert_ne by done.
        by rewrite deref_app_l.
    - by intros s p Hs.
    - intros s key Hs.
      destruct (on_key_state splitext has_writer s key)
        as [-> | [-> | [-> | [-> | [-> | (hs & snap & Hh & ->)]]]]];
        try exact Hs.
      destruct Hs as (Hok & Hlt & Hni & Hnh & Hd & Hp).
      split; [apply (tracks_undo s s hs snap Hh), tracks_refl, Hok|].
      simpl. rewrite Hh, elem_of_app, list_elem_of_singleton in Hnh.
      split; [done|]. split; [intros Heq; apply Hnh; by right|].
      split; [intros Hin; apply Hnh; by left | done].
    - split; [apply heap_ok_new_tool|]. simpl.
      split; [lia|]. split; [done|]. split; [apply not_elem_of_nil | done]. }
  intros self. by destruct HJ as (_ & _ & ? & ? & ? & ?).
Qed.

(** X4. Undoing everything gives back the loaded image: in every state the
    tool reaches, pressing the undo key once per history entry empties the
    history and leaves, as live image, the image the tool was created
    with. *)
Theorem undo_all_returns_loaded_image (path : string)
    (a : list (list (px Z))) (ticks : list tick) :
  let self := (run_loop (new_tool path a) ticks).1.1 in
  let n := length (history self) in
  live (undo n self) = a
  ∧ history (undo n self) = []
  ∧ (history self = [] → live self = a).
Proof.
  set (K := λ s : BlurTool,
    heap_ok s ∧ (snapshots s ++ [live s]) !! 0%nat = Some a).
  assert (HK : K (run_loop (new_tool path a) ticks).1.1).
  { apply (run_invariant GaussianBlur circle_pixels text_pixels splitext has_writer K);
      unfold K.
    - intros s cx cy (Hok & Hbottom).
      destruct (box_of s cx cy) as [[[x1 y1] x2] y2] eqn:Hbox.
      destruct (degenerate (x1, y1, x2, y2)) eqn:Hdeg.
      { by rewrite apply_blur_degenerate by (by rewrite Hbox). }
      split; [apply (tracks_apply _ _ s s cx cy), tracks_refl, Hok|].
      pose proof Hok as (Hlive & _).
      rewrite (apply_blur_eq _ _ s cx cy x1 y1 x2 y2) by done.
      unfold snapshots at 1. simpl. rewrite fmap_app. simpl.
      rewrite snapshots_frame by done.
      rewrite deref_insert_ne, deref_app_new by lia.
      rewrite lookup_app_l; [done|].
      rewrite length_app. simpl. lia.
    - by intros s p Hs.
    - intros s key Hs.
      destruct (on_key_state splitext has_writer s key)
        as [-> | [-> | [-> | [-> | [-> | (hs & snap & Hh & ->)]]]]];
        try exact Hs.
      destruct Hs as (Hok & Hbottom).
      split; [apply (tracks_undo s s hs snap Hh), tracks_refl, Hok|].
      unfold snapshots, live in *. simpl. rewrite Hh, fmap_app in Hbottom.
      simpl in Hbottom. rewrite lookup_app_l in Hbottom; [done|].
      rewrite length_app. simpl. lia.
    - split; [apply heap_ok_new_tool | done]. }
  intros self n. destruct HK as (_ & Hbottom). fold self in Hbottom.
  unfold n, snapshots in *.
  destruct (history self) as [|x rest] eqn:Hh.
  - simpl in *. split; [congruence|]. split; [done | congruence].
  - destruct (undo_many (length rest) self [] rest x Hh eq_refl)
      as (Hheap & Hhist & Himg).
    simpl length. unfold live at 1. rewrite Hheap, Himg.
    simpl in Hbottom. split; [congruence|]. split; [done | done].
Qed.

(** ** The main loop *)

Lemma land_255_mod (k : Z) : Z.land k 255 = k mod 256.
Proof. change 255 with (Z.ones 8). by rewrite Z.land_ones. Qed.

(** X5. The loop looks at the low byte of what [cv2.waitKey] returns only:
    two key codes that differ by a multiple of 256 do the same, whatever
    mouse events come with them; and when no key was pressed ([-1]) the turn
    shows the frame, delivers the mouse events and does nothing else. *)
Theorem key_code_is_read_modulo_256 (self : BlurTool)
    (evs : list (Z * Z * Z)) (k m : Z) :
  body self (mkTick evs (k + 256 * m)) = body self (mkTick evs k)
  ∧ body self (mkTick evs (-1))
    = (deliver self evs, [imshow (display_frame self)], false).
Proof.
  split; [|done]. unfold loop_body. simpl.
  rewrite !land_255_mod. by rewrite Z.mul_comm, Z_mod_plus_full.
Qed.

(** X6. Running the loop over two batches of turns is running it over the
    first batch and, unless the loop was left, going on with the second
    batch from the tool the first one ended with; once the loop is left,
    later turns change nothing and show nothing. *)
Theorem run_resumes_or_stops (self : BlurTool) (ticks1 ticks2 : list tick) :
  run_loop self (ticks1 ++ ticks2)
  = (let '(self1, out1, stop1) := run_loop self ticks1 in
     if stop1 then (self1, out1, true)
     else
       let '(self2, out2, stop2) := run_loop self1 ticks2 in
       (self2, out1 ++ out2, stop2)).
Proof.
  revert self. induction ticks1 as [|t ticks1 IH]; intros self.
  - simpl. by destruct (run_loop self ticks2) as [[s2 o2] st2].
  - simpl. destruct (body self t) as [[s1 o] st]. destruct st; [done|].
    rewrite IH. destruct (run_loop s1 ticks1) as [[s1' o1] st1].
    destruct st1; [done|].
    destruct (run_loop s1' ticks2) as [[s2 o2] st2].
    by rewrite app_assoc.
Qed.


(** What a key writes: the save key with an encoder for the output path,
    the save key without one, any other key. *)
Lemma key_writes (self : BlurTool) (key : Z) :
  ((key =? ord_q) = true
   ∧ has_writer (_output_path splitext self) = true
   ∧ key_pressed self key
     = (self,
        [imwrite (_output_path splitext self) (live self);
         print ("Saved blurred image to: " +:+ _output_path splitext self)],
        true))
  ∨ ((key =? ord_q) = true
     ∧ has_writer (_output_path splitext self) = false
     ∧ key_pressed self key = (self, [uncaught "cv2.error"], true))
  ∨ ((key =? ord_q) = false ∧ writes (key_pressed self key).1.2 = []
     ∧ frames (key_pressed self key).1.2 = []
     ∧ raised (key_pressed self key).1.2 = false).
Proof.
  unfold on_key. destruct (key =? ord_q).
  { destruct (has_writer _); [by left | by right; left]. }
  do 2 right. split; [done|].
  destruct (key =? 27); [done|].
  destruct ((key =? ord_plus) || (key =? ord_equals)); [done|].
  destruct (key =? ord_minus); [done|].
  destruct (key =? ord_rbracket); [done|].
  destruct (key =? ord_lbracket); [done|].
  destruct (key =? ord_u); [|done].
  by destruct (last (history self)).
Qed.

Lemma body_writes (self : BlurTool) (t : tick) :
  (Z.land (waitKey t) 255 = ord_q
   ∧ (body self t).2 = true
   ∧ raised (body self t).1.2 = false
   ∧ writes (body self t).1.2
     = [(_output_path splitext (body self t).1.1, live (body self t).1.1)])
  ∨ (Z.land (waitKey t) 255 = ord_q
     ∧ (body self t).2 = true
     ∧ raised (body self t).1.2 = true
     ∧ has_writer (_output_path splitext (body self t).1.1) = false
     ∧ writes (body self t).1.2 = [])
  ∨ (Z.land (waitKey t) 255 ≠ ord_q
     ∧ raised (body self t).1.2 = false
     ∧ writes (body self t).1.2 = []).
Proof.
  unfold loop_body.
  destruct (key_writes (deliver self (mouse_events t))
              (Z.land (waitKey t) 255))
    as [(Hq & _ & ->) | [(Hq & Hw & ->) | (Hq & Hw & _ & Hr)]].
  - left. by apply Z.eqb_eq in Hq.
  - right. left. by apply Z.eqb_eq in Hq.
  - do 2 right. apply Z.eqb_neq in Hq. split; [done|].
    by destruct (key_pressed _ _) as [[s out] stop].
Qed.

Lemma run_writes (self : BlurTool) (ticks : list tick) :
  (writes (run_loop self ticks).1.2 = []
   ∨ ((run_loop self ticks).2 = true
      ∧ writes (run_loop self ticks).1.2
        = [(_output_path splitext (run_loop self ticks).1.1,
            live (run_loop self ticks).1.1)]))
  ∧ (Forall (λ t, Z.land (waitKey t) 255 ≠ ord_q) ticks →
     writes (run_loop self ticks).1.2 = []).
Proof.
  revert self. induction ticks as [|t ticks IH]; intros self.
  { split; [by left | done]. }
  simpl. pose proof (body_writes self t) as Hbody.
  destruct (body self t) as [[s1 o] st]. simpl in Hbody.
  destruct st.
  - cbn [fst snd].
    assert (Hsame : writes (if raised o then o else o ++ [destroyAllWindows])
                    = writes o).
    { destruct (raised o); [done|]. unfold writes. rewrite omap_app. simpl.
      by rewrite app_nil_r. }
    rewrite Hsame.
    destruct Hbody as [(Hq & _ & _ & Hw) | [(Hq & _ & _ & _ & Hw) | (Hq & _ & Hw)]].
    + split; [by right|]. intros Hall. by apply Forall_inv in Hall.
    + split; [by left | done].
    + split; [by left | done].
  - destruct Hbody as [(_ & ? & _) | [(_ & ? & _) | (Hq & _ & Hw)]];
      [done | done |].
    specialize (IH s1). destruct (run_loop s1 ticks) as [[s2 o2] st2].
    simpl in *. unfold writes in *. rewrite omap_app, Hw. simpl.
    destruct IH as [IH1 IH2]. split; [done|].
    intros Hall. apply Forall_inv_tail in Hall. by apply IH2.
Qed.





(** ** The output path *)

Lemma string_length_app (a b : string) :
  String.length (a +:+ b) = (String.length a + String.length b)%nat.
Proof.
  induction a as [|c a IH]; [done|].
  change (S (String.length (a +:+ b))
          = S (String.length a + String.length b)). by rewrite IH.
Qed.

Lemma run_image_path (self : BlurTool) (ticks : list tick) :
  image_path (run_loop self ticks).1.1 = image_path self.
Proof.
  apply (run_invariant GaussianBlur circle_pixels text_pixels splitext has_writer
           (λ s, image_path s = image_path self)); [| | |done].
  - intros s cx cy Hs.
    by destruct (apply_blur_params GaussianBlur circle_pixels s cx cy)
      as (_ & _ & ->).
  - by intros s p Hs.
  - intros s key Hs.
    by destruct (on_key_state splitext has_writer s key)
      as [-> | [-> | [-> | [-> | [-> | (hs & snap & _ & ->)]]]]].
Qed.

(** X9. The tool never writes over its input: whatever the run, a path it
    writes to is eight characters longer than the path of the image it was
    given, hence another path. *)
Theorem input_is_never_overwritten (self : BlurTool) (ticks : list tick)
    (p : string) (img : list (list (px Z))) :
  (∀ q, (splitext q).1 +:+ (splitext q).2 = q) →
  (p, img) ∈ writes (run_loop self ticks).1.2 →
  String.length p = (String.length (image_path self) + 8)%nat
  ∧ p ≠ image_path self.
Proof.
  intros Hjoin Hin.
  assert (Hlen : String.length p = (String.length (image_path self) + 8)%nat).
  { destruct (run_writes self ticks) as [[Hw | [_ Hw]] _];
      rewrite Hw in Hin; [by apply elem_of_nil in Hin|].
    apply list_elem_of_singleton in Hin. injection Hin as -> _.
    unfold _output_path. rewrite run_image_path.
    specialize (Hjoin (image_path self)).
    destruct (splitext (image_path self)) as [base ext]. simpl in Hjoin.
    rewrite <- Hjoin, !string_length_app. simpl. lia. }
  split; [done|]. intros ->. lia.
Qed.

(** ** [main] *)


(** ** The frame shown *)

(** X10. The frame [_display_frame] returns is the live image with the
    overlay painted in green: a cell the text covers, or the preview circle
    when both mouse coordinates are non-negative, is green; every other
    cell is the cell of the live image; and the frame has the shape of the
    live image. Before the mouse has moved (position [(-1, -1)]) no circle
    is drawn. *)
Theorem display_frame_is_live_image_with_overlay (self : BlurTool)
    (h w y x : nat) :
  rect h w (live self) →
  let text :=
    ("Radius: " +:+ str (radius self) +:+ "  Blur: "
       +:+ str (blur_strength self))%string in
  let preview :=
    ((mouse_pos self).1 >=? 0) && ((mouse_pos self).2 >=? 0)
    && circle_pixels (mouse_pos self) (radius self) 2
         (Z.of_nat x) (Z.of_nat y) in
  rect h w (display_frame self)
  ∧ at2 (display_frame self) y x
    = (λ old,
         if text_pixels text (10, 30) (Z.of_nat x) (Z.of_nat y) || preview
         then green else old) <$> at2 (live self) y x.
Proof.
  intros Hr text preview. unfold _display_frame, cv2_putText, cv2_circle.
  unfold preview. destruct (mouse_pos self) as [mx my]. simpl.
  destruct ((mx >=? 0) && (my >=? 0)); simpl.
  - split; [by do 2 apply paint_rect|].
    rewrite !at2_paint. destruct (at2 (live self) y x); [|done]. simpl.
    fold text. unfold green.
    by destruct (text_pixels _ _ _ _), (circle_pixels _ _ _ _ _).
  - split; [by apply paint_rect|].
    rewrite at2_paint. destruct (at2 (live self) y x); [|done]. simpl.
    fold text. unfold green. rewrite orb_false_r.
    by destruct (text_pixels _ _ _ _).
Qed.

(** ** The values the parameters take *)

(** X11. The radius is always a multiple of 10, and the strength always ends
    in 1 or in 9: it walks [11, 21, ..., 191] until it is clamped at 199,
    and [199, 189, ..., 19] until it is clamped at 11. *)
Theorem parameters_stay_on_their_grids (path : string)
    (a : list (list (px Z))) (ticks : list tick) :
  let self := (run_loop (new_tool path a) ticks).1.1 in
  radius self mod 10 = 0
  ∧ (blur_strength self mod 10 = 1 ∨ blur_strength self mod 10 = 9).
Proof.
  apply (run_invariant GaussianBlur circle_pixels text_pixels splitext has_writer
           (λ s, radius s mod 10 = 0
                 ∧ (blur_strength s mod 10 = 1 ∨ blur_strength s mod 10 = 9))).
  - intros s cx cy Hs.
    by destruct (apply_blur_params GaussianBlur circle_pixels s cx cy)
      as (-> & -> & _).
  - by intros s p Hs.
  - intros s key [Hr Hb].
    destruct (on_key_state splitext has_writer s key)
      as [-> | [-> | [-> | [-> | [-> | (hs & snap & _ & ->)]]]]];
      unfold with_radius, with_blur_strength, with_image, with_history;
      cbn [radius blur_strength]; split;
      (done || (Z.div_mod_to_equations; lia)).
  - split; [done | by left].
Qed.

Lemma display_frame_rect (self : BlurTool) (h w : nat) :
  rect h w (live self) → rect h w (display_frame self).
Proof.
  intros Hr. unfold _display_frame, cv2_putText, cv2_circle.
  destruct (mouse_pos self) as [mx my].
  destruct ((mx >=? 0) && (my >=? 0)); by repeat apply paint_rect.
Qed.

(** ** Dimensions *)

Lemma images_ok_preserved (h w : nat) (ticks : list tick) (self : BlurTool) :
  shape_preserving GaussianBlur →
  images_ok h w self → images_ok h w (run_loop self ticks).1.1.
Proof.
  intros Hblur. apply (run_invariant _ _ _ _ _ (images_ok h w)).
  - intros s cx cy (Hok & Hlive & Hsnaps). pose proof Hok as (Himg & _).
    split; [apply (tracks_apply _ _ s s cx cy), tracks_refl, Hok|].
    split; [by apply apply_blur_rect|].
    destruct (box_of s cx cy) as [[[x1 y1] x2] y2] eqn:Hbox.
    destruct (degenerate (x1, y1, x2, y2)) eqn:Hdeg.
    + by rewrite apply_blur_degenerate by (by rewrite Hbox).
    + rewrite (apply_blur_eq _ _ s cx cy x1 y1 x2 y2) by done.
      unfold snapshots. simpl. rewrite fmap_app. simpl.
      rewrite snapshots_frame by done.
      rewrite deref_insert_ne, deref_app_new by lia.
      apply Forall_app. split; [done | by constructor].
  - by intros s p Hs.
  - intros s key Hs.
    destruct (on_key_state splitext has_writer s key)
      as [-> | [-> | [-> | [-> | [-> | (hs & snap & Hh & ->)]]]]];
      try exact Hs.
    destruct Hs as (Hok & Hlive & Hsnaps).
    split; [apply (tracks_undo s s hs snap Hh), tracks_refl, Hok|].
    unfold snapshots, live in *. simpl. rewrite Hh, fmap_app in Hsnaps.
    apply Forall_app in Hsnaps as [Hhs Hsnap].
    split; [by inversion Hsnap | done].
Qed.

Lemma body_images_ok (h w : nat) (t : tick) (self : BlurTool) :
  shape_preserving GaussianBlur →
  images_ok h w self → images_ok h w (body self t).1.1.
Proof.
  intros Hblur Hok.
  pose proof (images_ok_preserved h w [t] self Hblur Hok) as Hrun.
  rewrite run_state in Hrun. by destruct ((body self t).2).
Qed.

Lemma body_frames (self : BlurTool) (t : tick) :
  frames (body self t).1.2 = [display_frame self].
Proof.
  unfold loop_body.
  destruct (key_writes (deliver self (mouse_events t))
              (Z.land (waitKey t) 255))
    as [(_ & _ & ->) | [(_ & _ & ->) | (_ & _ & Hf & _)]]; [done | done |].
  destruct (key_pressed _ _) as [[s out] stop]. simpl in *.
  unfold frames in *. simpl. by rewrite Hf.
Qed.

(** X12. Nothing the tool does changes the dimensions of the image: along
    any run from an [h] by [w] image, the live image, every snapshot of the
    history, every frame shown and every image written are [h] by [w]. *)
Theorem dimensions_never_change (path : string) (a : list (list (px Z)))
    (h w : nat) (ticks : list tick) :
  shape_preserving GaussianBlur →
  rect h w a →
  let r := run_loop (new_tool path a) ticks in
  rect h w (live r.1.1)
  ∧ Forall (rect h w) (snapshots r.1.1)
  ∧ Forall (rect h w) (frames r.1.2)
  ∧ Forall (λ pw, rect h w pw.2) (writes r.1.2).
Proof.
  intros Hblur Ha r.
  assert (Hgen : ∀ ticks self, images_ok h w self →
    Forall (rect h w) (frames (run_loop self ticks).1.2)
    ∧ Forall (λ pw, rect h w pw.2) (writes (run_loop self ticks).1.2)).
  { clear r ticks. induction ticks as [|t ticks IH]; intros self Hok.
    { split; constructor. }
    pose proof (body_images_ok h w t self Hblur Hok) as Hok1.
    pose proof (body_frames self t) as Hf.
    pose proof (body_writes self t) as Hw.
    pose proof Hok as (_ & Hlive & _).
    assert (Hframe : Forall (rect h w) (frames (body self t).1.2)).
    { rewrite Hf. constructor; [|constructor].
      by apply (display_frame_rect self h w). }
    assert (Hwrite : Forall (λ pw, rect h w pw.2) (writes (body self t).1.2)).
    { destruct Hw as [(_ & _ & _ & ->) | [(_ & _ & _ & _ & ->) | (_ & _ & ->)]];
        [|constructor..].
      constructor; [|constructor]. simpl. by destruct Hok1 as (_ & ? & _). }
    simpl. destruct (body self t) as [[s1 o] st]. simpl in *.
    destruct st.
    - cbn [fst snd]. destruct (raised o); [done|].
      unfold frames, writes in *. rewrite !omap_app. simpl.
      by rewrite !app_nil_r.
    - destruct (IH s1 Hok1) as [IHf IHw].
      destruct (run_loop s1 ticks) as [[s2 o2] st2]. cbn [fst snd] in *.
      unfold frames, writes in *. rewrite !omap_app.
      split; apply Forall_app; done. }
  assert (Hok0 : images_ok h w (new_tool path a)).
  { split; [apply heap_ok_new_tool|]. split; [exact Ha | constructor]. }
  destruct (images_ok_preserved h w ticks _ Hblur Hok0) as (_ & Hl & Hs).
  destruct (Hgen ticks _ Hok0) as [Hf Hw]. done.
Qed.

(** ** Which clicks take effect *)

(** X13. With a positive radius on an image that is not empty, a click takes
    effect exactly when its centre is less than the radius away from the
    image on each axis: [-r < cx < w + r] and [-r < cy < h + r]. It then
    pushes one history entry; any other click leaves the tool as it is. In
    particular every click inside the image takes effect. *)
Theorem click_takes_effect_iff (self : BlurTool) (cx cy : Z) (h w : nat) :
  rect h w (live self) → (0 < h)%nat → (0 < w)%nat → 0 < radius self →
  let r := radius self in
  let near := (- r < cx < Z.of_nat w + r) ∧ (- r < cy < Z.of_nat h + r) in
  (degenerate (box_of self cx cy) = false ↔ near)
  ∧ (near → history (apply_blur self cx cy)
            = history self ++ [length (heap self)])
  ∧ (¬ near → apply_blur self cx cy = self).
Proof.
  intros Hr Hh Hw Hrad r near.
  assert (Hiff : degenerate (box_of self cx cy) = false ↔ near).
  { unfold box_of, bbox. rewrite (rect_shape h w) by done.
    rewrite degenerate_false. unfold near, r. lia. }
  split; [done|]. split.
  - intros Hnear. apply Hiff in Hnear. revert Hnear.
    unfold box_of, _apply_blur. destruct (shape (live self)) as [h' w'].
    destruct (bbox w' h' cx cy (radius self)) as [[[x1 y1] x2] y2].
    by intros ->.
  - intros Hfar. apply apply_blur_degenerate.
    destruct (degenerate (box_of self cx cy)); [done|].
    exfalso. by apply Hfar, Hiff.
Qed.

(** ** Clicks on disjoint regions *)

Lemma array_ext {A} (h w : nat) (a b : list (list A)) :
  rect h w a → rect h w b →
  (∀ y x : nat, (y < h)%nat → (x < w)%nat → at2 a y x = at2 b y x) →
  a = b.
Proof.
  intros Ha Hb Hcells. apply list_eq. intros y.
  destruct (a !! y) as [ra|] eqn:Hra, (b !! y) as [rb|] eqn:Hrb.
  - f_equal. apply list_eq. intros x.
    pose proof (rect_row _ _ _ _ _ Ha Hra) as Hla.
    pose proof (rect_row _ _ _ _ _ Hb Hrb) as Hlb.
    destruct (decide (x < w)%nat) as [Hx|Hx].
    + assert (Hy : (y < h)%nat)
        by (destruct Ha as [<- _]; eapply lookup_lt_Some, Hra).
      specialize (Hcells y x Hy Hx). unfold at2 in Hcells.
      by rewrite Hra, Hrb in Hcells.
    + rewrite !lookup_ge_None_2 by lia. done.
  - apply lookup_lt_Some in Hra. apply lookup_ge_None in Hrb.
    destruct Ha as [Ha _], Hb as [Hb _]. lia.
  - apply lookup_lt_Some in Hrb. apply lookup_ge_None in Hra.
    destruct Ha as [Ha _], Hb as [Hb _]. lia.
  - done.
Qed.

Lemma slice2_ext {A} (h w : nat) (a b : list (list A)) (y1 y2 x1 x2 : Z) :
  rect h w a → rect h w b →
  0 ≤ y1 ≤ y2 → y2 ≤ Z.of_nat h → 0 ≤ x1 ≤ x2 → x2 ≤ Z.of_nat w →
  (∀ y x : nat, y1 ≤ Z.of_nat y < y2 → x1 ≤ Z.of_nat x < x2 →
                at2 a y x = at2 b y x) →
  slice2 a y1 y2 x1 x2 = slice2 b y1 y2 x1 x2.
Proof.
  intros Ha Hb Hy1 Hy2 Hx1 Hx2 Hcells.
  apply (array_ext (Z.to_nat (y2 - y1)) (Z.to_nat (x2 - x1)));
    [by apply (slice2_rect h w) | by apply (slice2_rect h w) |].
  intros ly lx Hly Hlx.
  rewrite !(at2_slice2 h w) by done. apply Hcells; lia.
Qed.

Lemma box_of_same (self self' : BlurTool) (cx cy : Z) (h w : nat) :
  rect h w (live self) → rect h w (live self') →
  radius self' = radius self →
  box_of self' cx cy = box_of self cx cy.
Proof.
  intros [Hh Hw] [Hh' Hw'] Hrad. unfold box_of. rewrite Hrad.
  assert (Hshape : shape (live self') = shape (live self)); [|by rewrite Hshape].
  unfold shape. rewrite Hh, Hh'.
  destruct (live self) as [|row l], (live self') as [|row' l'];
    simpl in *; try done; try lia.
  apply Forall_inv in Hw, Hw'. by rewrite Hw, Hw'.
Qed.

(** A cell of the box of the first click, when the box of the second click
    is elsewhere: whichever click comes first, the cell receives what the
    first click composites from the image as it was. *)
Lemma disjoint_clicks_cell (self : BlurTool) (h w : nat)
    (cx cy x1 y1 x2 y2 cx' cy' x1' y1' x2' y2' : Z) (y x : nat) :
  shape_preserving GaussianBlur →
  heap_ok self → rect h w (live self) →
  box_of self cx cy = (x1, y1, x2, y2) →
  degenerate (x1, y1, x2, y2) = false →
  box_of self cx' cy' = (x1', y1', x2', y2') →
  degenerate (x1', y1', x2', y2') = false →
  x2 ≤ x1' ∨ x2' ≤ x1 ∨ y2 ≤ y1' ∨ y2' ≤ y1 →
  x1 ≤ Z.of_nat x < x2 → y1 ≤ Z.of_nat y < y2 →
  at2 (live (apply_blur (apply_blur self cx cy) cx' cy')) y x
  = at2 (live (apply_blur (apply_blur self cx' cy') cx cy)) y x.
Proof.
  intros Hblur Hok Hr Hbox Hnd Hbox' Hnd' Hdisj Hx Hy.
  pose proof Hok as (Hlive & _).
  destruct (box_of_bounds self cx cy h w _ _ _ _ Hr Hbox Hnd) as [Hbx Hby].
  destruct (box_of_bounds self cx' cy' h w _ _ _ _ Hr Hbox' Hnd')
    as [Hbx' Hby'].
  set (s1 := apply_blur self cx cy). set (s2 := apply_blur self cx' cy').
  assert (Hok1 : heap_ok s1)
    by apply (tracks_apply _ _ self self cx cy), tracks_refl, Hok.
  assert (Hok2 : heap_ok s2)
    by apply (tracks_apply _ _ self self cx' cy'), tracks_refl, Hok.
  assert (Hr1 : rect h w (live s1)) by (by apply apply_blur_rect).
  assert (Hr2 : rect h w (live s2)) by (by apply apply_blur_rect).
  destruct (apply_blur_params GaussianBlur circle_pixels self cx cy)
    as (Hrad1 & Hstr1 & _).
  destruct (apply_blur_params GaussianBlur circle_pixels self cx' cy')
    as (Hrad2 & Hstr2 & _).
  fold s1 in Hrad1, Hstr1. fold s2 in Hrad2, Hstr2.
  assert (Hbox1 : box_of s1 cx' cy' = (x1', y1', x2', y2'))
    by (by rewrite (box_of_same self s1 cx' cy' h w)).
  assert (Hbox2 : box_of s2 cx cy = (x1, y1, x2, y2))
    by (by rewrite (box_of_same self s2 cx cy h w)).
  pose proof Hok1 as (Hlive1 & _). pose proof Hok2 as (Hlive2 & _).
  set (ly := (y - Z.to_nat y1)%nat). set (lx := (x - Z.to_nat x1)%nat).
  assert (Hyl : y = (Z.to_nat y1 + ly)%nat) by (unfold ly; lia).
  assert (Hxl : x = (Z.to_nat x1 + lx)%nat) by (unfold lx; lia).
  (* the first click, then the second *)
  rewrite (apply_blur_outside _ _ s1 cx' cy' x1' y1' x2' y2' h w y x)
    by (done || lia).
  (* the second click, then the first *)
  rewrite Hyl, Hxl.
  unfold s1 at 1.
  rewrite (apply_blur_inside _ _ self cx cy x1 y1 x2 y2 h w ly lx)
    by (done || lia).
  rewrite (apply_blur_inside _ _ s2 cx cy x1 y1 x2 y2 h w ly lx)
    by (done || lia).
  rewrite Hrad2, Hstr2. do 2 f_equal.
  apply (slice2_ext h w); try (done || lia).
  intros y0 x0 Hy0 Hx0. symmetry.
  apply (apply_blur_outside _ _ self cx' cy' x1' y1' x2' y2' h w);
    (done || lia).
Qed.

(** X14. Two clicks whose bounding boxes do not meet can be made in either
    order: the live image is the same afterwards. *)
Theorem disjoint_clicks_commute (self : BlurTool) (h w : nat)
    (cx cy x1 y1 x2 y2 cx' cy' x1' y1' x2' y2' : Z) :
  shape_preserving GaussianBlur →
  heap_ok self → rect h w (live self) →
  box_of self cx cy = (x1, y1, x2, y2) →
  box_of self cx' cy' = (x1', y1', x2', y2') →
  x2 ≤ x1' ∨ x2' ≤ x1 ∨ y2 ≤ y1' ∨ y2' ≤ y1 →
  live (apply_blur (apply_blur self cx cy) cx' cy')
  = live (apply_blur (apply_blur self cx' cy') cx cy).
Proof.
  intros Hblur Hok Hr Hbox Hbox' Hdisj. pose proof Hok as (Hlive & _).
  set (s1 := apply_blur self cx cy). set (s2 := apply_blur self cx' cy').
  assert (Hok1 : heap_ok s1)
    by apply (tracks_apply _ _ self self cx cy), tracks_refl, Hok.
  assert (Hok2 : heap_ok s2)
    by apply (tracks_apply _ _ self self cx' cy'), tracks_refl, Hok.
  assert (Hr1 : rect h w (live s1)) by (by apply apply_blur_rect).
  assert (Hr2 : rect h w (live s2)) by (by apply apply_blur_rect).
  destruct (apply_blur_params GaussianBlur circle_pixels self cx cy)
    as (Hrad1 & _). fold s1 in Hrad1.
  destruct (apply_blur_params GaussianBlur circle_pixels self cx' cy')
    as (Hrad2 & _). fold s2 in Hrad2.
  assert (Hbox1 : box_of s1 cx' cy' = (x1', y1', x2', y2'))
    by (by rewrite (box_of_same self s1 cx' cy' h w)).
  assert (Hbox2 : box_of s2 cx cy = (x1, y1, x2, y2))
    by (by rewrite (box_of_same self s2 cx cy h w)).
  pose proof Hok1 as (Hlive1 & _). pose proof Hok2 as (Hlive2 & _).
  destruct (degenerate (x1, y1, x2, y2)) eqn:Hnd.
  { rewrite (apply_blur_degenerate _ _ s2 cx cy) by (by rewrite Hbox2).
    unfold s1. by rewrite (apply_blur_degenerate _ _ self cx cy)
      by (by rewrite Hbox). }
  destruct (degenerate (x1', y1', x2', y2')) eqn:Hnd'.
  { rewrite (apply_blur_degenerate _ _ s1 cx' cy') by (by rewrite Hbox1).
    unfold s2. by rewrite (apply_blur_degenerate _ _ self cx' cy')
      by (by rewrite Hbox'). }
  apply (array_ext h w); [by apply apply_blur_rect..|].
  intros y x Hy Hx.
  destruct (decide (x1 ≤ Z.of_nat x < x2 ∧ y1 ≤ Z.of_nat y < y2))
    as [[Hinx Hiny]|Hout].
  { by apply (disjoint_clicks_cell self h w cx cy x1 y1 x2 y2
                cx' cy' x1' y1' x2' y2'). }
  destruct (decide (x1' ≤ Z.of_nat x < x2' ∧ y1' ≤ Z.of_nat y < y2'))
    as [[Hinx Hiny]|Hout'].
  { symmetry.
    apply (disjoint_clicks_cell self h w cx' cy' x1' y1' x2' y2'
             cx cy x1 y1 x2 y2); (done || lia). }
  rewrite (apply_blur_outside _ _ s1 cx' cy' x1' y1' x2' y2' h w) by done.
  rewrite (apply_blur_outside _ _ s2 cx cy x1 y1 x2 y2 h w) by done.
  unfold s1, s2.
  rewrite (apply_blur_outside _ _ self cx cy x1 y1 x2 y2 h w) by done.
  by rewrite (apply_blur_outside _ _ self cx' cy' x1' y1' x2' y2' h w).
Qed.

(** ** Keys and clicks touch different things *)

(** X15. No key but the undo key changes the store, the live image or the
    history; no key but ["+"], ["="] and ["-"] changes the radius; no key
    but ["]"] and ["["] changes the strength; no key moves the recorded
    mouse position; and a click changes neither parameter nor that
    position. *)
Theorem keys_and_clicks_are_independent (self : BlurTool) (key cx cy : Z) :
  let self' := (key_pressed self key).1.1 in
  (key ≠ ord_u →
   heap self' = heap self ∧ image self' = image self
   ∧ history self' = history self)
  ∧ (key ≠ ord_plus → key ≠ ord_equals → key ≠ ord_minus →
     radius self' = radius self)
  ∧ (key ≠ ord_rbracket → key ≠ ord_lbracket →
     blur_strength self' = blur_strength self)
  ∧ mouse_pos self' = mouse_pos self
  ∧ radius (apply_blur self cx cy) = radius self
  ∧ blur_strength (apply_blur self cx cy) = blur_strength self
  ∧ mouse_pos (apply_blur self cx cy) = mouse_pos self.
Proof.
  intros self'.
  assert (Hclick : radius (apply_blur self cx cy) = radius self
    ∧ blur_strength (apply_blur self cx cy) = blur_strength self
    ∧ mouse_pos (apply_blur self cx cy) = mouse_pos self).
  { unfold _apply_blur. destruct (shape (live self)) as [h w].
    destruct (bbox w h cx cy (radius self)) as [[[x1 y1] x2] y2].
    by destruct (degenerate _). }
  destruct Hclick as (Hc1 & Hc2 & Hc3).
  unfold self', on_key.
  destruct (Z.eqb_spec key ord_q);
    [destruct (has_writer _); repeat split; intros; simpl; congruence|].
  destruct (Z.eqb_spec key 27);
    [repeat split; intros; simpl; congruence|].
  destruct (Z.eqb_spec key ord_plus);
    [repeat split; intros; simpl; congruence|].
  destruct (Z.eqb_spec key ord_equals);
    [repeat split; intros; simpl; congruence|].
  destruct (Z.eqb_spec key ord_minus);
    [repeat split; intros; simpl; congruence|].
  destruct (Z.eqb_spec key ord_rbracket);
    [repeat split; intros; simpl; congruence|].
  destruct (Z.eqb_spec key ord_lbracket);
    [repeat split; intros; simpl; congruence|].
  destruct (Z.eqb_spec key ord_u);
    [|repeat split; intros; simpl; congruence].
  destruct (last (history self)); repeat split; intros; simpl; congruence.
Qed.

(** ** A click that changes no cell *)

(** X16. When the blur returns the region it is given (as on a region of one
    colour), the click leaves every cell of the live image as it was, yet it
    pushes a snapshot all the same: the next undo is spent on it. *)
Theorem click_without_visible_change (self : BlurTool) (cx cy : Z) (h w : nat)
    (x1 y1 x2 y2 : Z) :
  shape_preserving GaussianBlur →
  heap_ok self → rect h w (live self) →
  box_of self cx cy = (x1, y1, x2, y2) →
  degenerate (x1, y1, x2, y2) = false →
  GaussianBlur (slice2 (live self) y1 y2 x1 x2)
    (Z.lor (blur_strength self) 1)
  = slice2 (live self) y1 y2 x1 x2 →
  live (apply_blur self cx cy) = live self
  ∧ history (apply_blur self cx cy) = history self ++ [length (heap self)]
  ∧ snapshots (apply_blur self cx cy) = snapshots self ++ [live self].
Proof.
  intros Hblur Hok Hr Hbox Hnd Hid. pose proof Hok as (Hlive & _).
  destruct (box_of_bounds self cx cy h w _ _ _ _ Hr Hbox Hnd) as [Hbx Hby].
  split.
  - apply (array_ext h w); [by apply apply_blur_rect | done |].
    intros y x Hy Hx.
    destruct (decide (x1 ≤ Z.of_nat x < x2 ∧ y1 ≤ Z.of_nat y < y2))
      as [[Hinx Hiny]|Hout];
      [|by apply (apply_blur_outside _ _ self cx cy x1 y1 x2 y2 h w)].
    set (ly := (y - Z.to_nat y1)%nat). set (lx := (x - Z.to_nat x1)%nat).
    assert (Hyl : y = (Z.to_nat y1 + ly)%nat) by (unfold ly; lia).
    assert (Hxl : x = (Z.to_nat x1 + lx)%nat) by (unfold lx; lia).
    rewrite Hyl, Hxl.
    rewrite (apply_blur_inside _ _ self cx cy x1 y1 x2 y2 h w ly lx)
      by (done || lia).
    assert (Hroi : rect (Z.to_nat (y2 - y1)) (Z.to_nat (x2 - x1))
                     (slice2 (live self) y1 y2 x1 x2))
      by (apply (slice2_rect h w); (done || lia)).
    destruct (at2_roi_out GaussianBlur circle_pixels _ _ _ cx cy x1 y1
                (radius self) (blur_strength self) ly lx Hblur Hroi)
      as (orig & blurred & Horig & Hblurred & ->); [lia | lia |].
    rewrite Hid, Horig in Hblurred. injection Hblurred as <-.
    rewrite <- (at2_slice2 h w (live self) y1 y2 x1 x2 ly lx)
      by (done || lia).
    rewrite Horig. by destruct (circle_pixels _ _ _ _ _).
  - rewrite (apply_blur_eq _ _ self cx cy x1 y1 x2 y2) by done.
    split; [done|]. unfold snapshots at 1. simpl. rewrite fmap_app. simpl.
    rewrite snapshots_frame by done.
    by rewrite deref_insert_ne, deref_app_new by lia.
Qed.

End Session.

(** ** The further properties, on concrete sessions *)

Lemma black_tool_ok : heap_ok black_tool.
Proof.
  unfold heap_ok. simpl. split; [lia|]. split; [constructor|].
  apply NoDup_singleton.
Qed.

Lemma black_tool_rect : rect 24 32 (live black_tool).
Proof.
  split; [reflexivity|]. apply Forall_replicate. reflexivity.
Qed.

Lemma undo_pops_latest_snapshot_witness :
  history (_apply_blur mean_blur disc_pixels tiny_tool 1 1) ≠ []
  ∧ ∃ self',
      on_key posix_splitext known_writer (_apply_blur mean_blur disc_pixels tiny_tool 1 1)
        ord_u
      = (self', [print "Undo."], false)
      ∧ snapshots (_apply_blur mean_blur disc_pixels tiny_tool 1 1)
        = snapshots self' ++ [live self']
      ∧ length (history (_apply_blur mean_blur disc_pixels tiny_tool 1 1))
        = S (length (history self')).
Proof.
  assert (Hne : history (_apply_blur mean_blur disc_pixels tiny_tool 1 1) ≠ [])
    by (intros Heq; discriminate Heq).
  split; [exact Hne|].
  destruct (undo_pops_latest_snapshot posix_splitext known_writer _ Hne)
    as (self' & Hkey & Hsnaps & Hlen & _).
  exists self'. split; [exact Hkey|]. split; [exact Hsnaps | exact Hlen].
Defined.

Lemma undo_reverts_burst_witness :
  heap_ok demo_tool
  ∧ let self' :=
      foldl (λ s e, _mouse_callback mean_blur disc_pixels s e.1.1 e.1.2 e.2)
        demo_tool [(0, 3, 4); (1, 16, 12); (1, -1000, -1000); (1, 5, 5)] in
    let n := (length (history self') - length (history demo_tool))%nat in
    live (press posix_splitext known_writer ord_u n self') = live demo_tool
    ∧ history (press posix_splitext known_writer ord_u n self') = history demo_tool
    ∧ snapshots (press posix_splitext known_writer ord_u n self') = snapshots demo_tool.
Proof.
  split; [exact demo_tool_ok|].
  apply (undo_reverts_burst mean_blur disc_pixels posix_splitext known_writer demo_tool
           [(0, 3, 4); (1, 16, 12); (1, -1000, -1000); (1, 5, 5)]
           demo_tool_ok).
Defined.

Lemma input_is_never_overwritten_witness :
  (∀ q, (posix_splitext q).1 +:+ (posix_splitext q).2 = q)
  ∧ ("t_blurred.png"%string, live tiny_tool)
    ∈ writes (run mean_blur disc_pixels no_text posix_splitext known_writer tiny_tool
                [mkTick [] 113]).1.2
  ∧ String.length "t_blurred.png"
    = (String.length (image_path tiny_tool) + 8)%nat
  ∧ "t_blurred.png"%string ≠ image_path tiny_tool.
Proof.
  assert (Hin : ("t_blurred.png"%string, live tiny_tool)
    ∈ writes (run mean_blur disc_pixels no_text posix_splitext known_writer tiny_tool
                [mkTick [] 113]).1.2)
    by (apply list_elem_of_singleton; reflexivity).
  split; [exact posix_splitext_join|]. split; [exact Hin|].
  exact (input_is_never_overwritten mean_blur disc_pixels no_text
           posix_splitext known_writer tiny_tool [mkTick [] 113] _ _
           posix_splitext_join Hin).
Defined.

Lemma display_frame_is_live_image_with_overlay_witness :
  rect 24 32 (live demo_tool)
  ∧ rect 24 32 (_display_frame disc_pixels no_text demo_tool)
  ∧ at2 (_display_frame disc_pixels no_text demo_tool) 3 4
    = Some (Px 4 3 7).
Proof.
  split; [exact demo_tool_rect|].
  destruct (display_frame_is_live_image_with_overlay disc_pixels no_text
              demo_tool 24 32 3 4 demo_tool_rect) as [Hrect Hcell].
  split; [exact Hrect|]. rewrite Hcell. reflexivity.
Defined.

Lemma dimensions_never_change_witness :
  shape_preserving mean_blur
  ∧ rect 24 32 demo_image
  ∧ let r := run mean_blur disc_pixels no_text posix_splitext known_writer
               (new_tool "pics/me.jpg" demo_image)
               [mkTick [(1, 16, 12)] 117; mkTick [(1, 5, 5)] 113] in
    rect 24 32 (live r.1.1)
    ∧ Forall (rect 24 32) (snapshots r.1.1)
    ∧ Forall (rect 24 32) (frames r.1.2)
    ∧ Forall (λ pw, rect 24 32 pw.2) (writes r.1.2).
Proof.
  split; [exact mean_blur_shape|]. split; [exact demo_image_rect|].
  apply (dimensions_never_change mean_blur disc_pixels no_text posix_splitext known_writer
           "pics/me.jpg" demo_image 24 32 _ mean_blur_shape demo_image_rect).
Defined.

Lemma click_takes_effect_iff_witness :
  rect 24 32 (live demo_tool) ∧ (0 < 24)%nat ∧ (0 < 32)%nat
  ∧ 0 < radius demo_tool
  ∧ history (_apply_blur mean_blur disc_pixels demo_tool 41 (-9))
    = history demo_tool ++ [length (heap demo_tool)]
  ∧ _apply_blur mean_blur disc_pixels demo_tool 42 (-9) = demo_tool.
Proof.
  split; [exact demo_tool_rect|]. split; [lia|]. split; [lia|].
  split; [reflexivity|].
  destruct (click_takes_effect_iff mean_blur disc_pixels demo_tool 41 (-9)
              24 32 demo_tool_rect) as (_ & Hin & _);
    [lia | lia | reflexivity |].
  destruct (click_takes_effect_iff mean_blur disc_pixels demo_tool 42 (-9)
              24 32 demo_tool_rect) as (_ & _ & Hout);
    [lia | lia | reflexivity |].
  split.
  - apply Hin. cbn. lia.
  - apply Hout. cbn. lia.
Defined.

Lemma disjoint_clicks_commute_witness :
  shape_preserving mean_blur
  ∧ heap_ok demo_tool ∧ rect 24 32 (live demo_tool)
  ∧ box_of demo_tool 5 5 = (0, 0, 15, 15)
  ∧ box_of demo_tool 28 18 = (18, 8, 32, 24)
  ∧ (15 ≤ 18 ∨ 32 ≤ 0 ∨ 15 ≤ 8 ∨ 24 ≤ 0)
  ∧ live (_apply_blur mean_blur disc_pixels
            (_apply_blur mean_blur disc_pixels demo_tool 5 5) 28 18)
    = live (_apply_blur mean_blur disc_pixels
              (_apply_blur mean_blur disc_pixels demo_tool 28 18) 5 5).
Proof.
  split; [exact mean_blur_shape|]. split; [exact demo_tool_ok|].
  split; [exact demo_tool_rect|]. split; [reflexivity|].
  split; [reflexivity|]. split; [left; lia|].
  apply (disjoint_clicks_commute mean_blur disc_pixels demo_tool 24 32
           5 5 0 0 15 15 28 18 18 8 32 24 mean_blur_shape demo_tool_ok
           demo_tool_rect eq_refl eq_refl).
  left. lia.
Defined.

Lemma click_without_visible_change_witness :
  shape_preserving mean_blur
  ∧ heap_ok black_tool ∧ rect 24 32 (live black_tool)
  ∧ box_of black_tool 16 12 = (6, 2, 26, 22)
  ∧ degenerate (6, 2, 26, 22) = false
  ∧ mean_blur (slice2 (live black_tool) 2 22 6 26)
      (Z.lor (blur_strength black_tool) 1)
    = slice2 (live black_tool) 2 22 6 26
  ∧ live (_apply_blur mean_blur disc_pixels black_tool 16 12)
    = live black_tool
  ∧ history (_apply_blur mean_blur disc_pixels black_tool 16 12)
    = history black_tool ++ [length (heap black_tool)]
  ∧ snapshots (_apply_blur mean_blur disc_pixels black_tool 16 12)
    = snapshots black_tool ++ [live black_tool].
Proof.
  split; [exact mean_blur_shape|]. split; [exact black_tool_ok|].
  split; [exact black_tool_rect|]. split; [reflexivity|].
  split; [reflexivity|]. split; [reflexivity|].
  apply (click_without_visible_change mean_blur disc_pixels black_tool 16 12
           24 32 6 2 26 22 mean_blur_shape black_tool_ok black_tool_rect);
    reflexivity.
Defined.

(** ** [main], computed: an image with an extension, and one without *)

Example main_saves_png :
  main mean_blur disc_pixels no_text posix_splitext known_writer
    "t.png" true (Some tiny_image) [mkTick [] 113]
  = ([imshow (_display_frame disc_pixels no_text (new_tool "t.png" tiny_image));
      imwrite "t_blurred.png" tiny_image;
      print "Saved blurred image to: t_blurred.png";
      destroyAllWindows],
     Some 0).
Proof. reflexivity. Qed.

Example main_cannot_save_without_extension :
  main mean_blur disc_pixels no_text posix_splitext known_writer
    "noext" true (Some tiny_image) [mkTick [] 113]
  = ([imshow (_display_frame disc_pixels no_text (new_tool "noext" tiny_image));
      uncaught "cv2.error"],
     Some 1).
Proof. reflexivity. Qed.
